(** * Identifier resolution engine of wpm-bot

    Shallow embedding of the resolution core of [src/wpm_bot.py]
    ([WPMBot.load_code_blocks], [fuzzy_match_function_name],
    [levenshtein_distance], [calculate_similarity],
    [get_code_from_database], [save_unknown_function_screenshot]) and of
    the maintenance scripts [src/add_ocr_correction.py] and
    [src/review_unknowns.py].

    Conventions of the model:
    - Python strings are [string] (ASCII characters); [str.lower] is
      ASCII lower-casing.
    - Python dicts are association lists kept in insertion order; setting
      an existing key updates it in place, a new key is appended.
    - Python floats used as scores are modelled by exact rationals [Q]. *)

From Stdlib Require Import Ascii String List Arith Lia QArith Bool Lqa.
From Stdlib Require Import Sorted Permutation.
Import ListNotations.
Open Scope string_scope.
Open Scope nat_scope.

(* ------------------------------------------------------------------ *)
(** ** Python string primitives *)

Module Py.

(** [c.lower()] for one ASCII character. *)
Definition lower_char (c : ascii) : ascii :=
  let n := nat_of_ascii c in
  if Nat.leb 65 n && Nat.leb n 90 then ascii_of_nat (n + 32)%nat else c.

(** [s.lower()] *)
Fixpoint lower (s : string) : string :=
  match s with
  | EmptyString => EmptyString
  | String c s' => String (lower_char c) (lower s')
  end.

(** [s.startswith(p)] *)
Fixpoint startswith (s p : string) : bool :=
  match p, s with
  | EmptyString, _ => true
  | String c p', String d s' => Ascii.eqb c d && startswith s' p'
  | String _ _, EmptyString => false
  end.

(** [s[n:]] *)
Fixpoint drop (n : nat) (s : string) : string :=
  match n, s with
  | O, _ => s
  | S n', String _ s' => drop n' s'
  | S _, EmptyString => EmptyString
  end.

(** [needle in hay] for strings: substring test. *)
Fixpoint contains (needle hay : string) : bool :=
  startswith hay needle ||
  match hay with
  | EmptyString => false
  | String _ hay' => contains needle hay'
  end.

(** Truthiness of a string: [not s] is [s == ""]. *)
Definition truthy (s : string) : bool :=
  match s with EmptyString => false | _ => true end.

End Py.

(* ------------------------------------------------------------------ *)
(** ** Levenshtein distance ([WPMBot.levenshtein_distance]) *)

Module Lev.

(** [(c1 != c2)] as an integer. *)
Definition neq (c1 c2 : ascii) : nat := if Ascii.eqb c1 c2 then 0 else 1.

(** The inner [for j, c2 in enumerate(s2)] loop: [prev] is the part of
    [previous_row] from index [j], [left] is [current_row[j]]; each step
    appends [min(insertions, deletions, substitutions)]. *)
Fixpoint row_loop (c1 : ascii) (s2 : list ascii) (prev : list nat) (left : nat)
  : list nat :=
  match s2, prev with
  | c2 :: s2', p0 :: ((p1 :: _) as prev') =>
      let insertions := p1 + 1 in
      let deletions := left + 1 in
      let substitutions := p0 + neq c1 c2 in
      let v := Nat.min (Nat.min insertions deletions) substitutions in
      v :: row_loop c1 s2' prev' v
  | _, _ => []
  end.

(** The outer [for i, c1 in enumerate(s1)] loop; [i] counts the rows
    already computed, [prev] is [previous_row]. *)
Fixpoint outer (s1 s2 : list ascii) (i : nat) (prev : list nat) : list nat :=
  match s1 with
  | [] => prev
  | c1 :: s1' =>
      let current_row := S i :: row_loop c1 s2 prev (S i) in
      outer s1' s2 (S i) current_row
  end.

(** Body of [levenshtein_distance] once [len(s1) >= len(s2)]. *)
Definition core (s1 s2 : list ascii) : nat :=
  if length s2 =? 0 then length s1
  else last (outer s1 s2 0 (seq 0 (length s2 + 1))) 0.

(** [levenshtein_distance(s1, s2)], with its one swapping recursive call. *)
Definition levenshtein_list (s1 s2 : list ascii) : nat :=
  if length s1 <? length s2 then core s2 s1 else core s1 s2.

(** Reference edit distance, by recursion on the fronts of both lists:
    the classic three-way recurrence (delete, insert, substitute). *)
Fixpoint ed (xs ys : list ascii) : nat :=
  match xs with
  | [] => length ys
  | x :: xs' =>
      (fix ed_x (ys : list ascii) : nat :=
         match ys with
         | [] => length xs
         | y :: ys' =>
             Nat.min (Nat.min (ed xs' ys + 1) (ed_x ys' + 1))
                     (ed xs' ys' + neq x y)
         end) ys
  end.

(** Edit distance of prefixes, the quantity held in the DP rows. *)
Definition E (a b : list ascii) : nat := ed (rev a) (rev b).

(** The values [f b, f (b++[y1]), f (b++[y1;y2]), ...] along [ys]. *)
Fixpoint pr (f : list ascii -> nat) (b ys : list ascii) : list nat :=
  f b :: match ys with
         | [] => []
         | y :: ys' => pr f (b ++ [y]) ys'
         end.

End Lev.

Definition levenshtein_distance (s1 s2 : string) : nat :=
  Lev.levenshtein_list (list_ascii_of_string s1) (list_ascii_of_string s2).

(** [calculate_similarity(s1, s2)] (identical in [wpm_bot.py] and
    [review_unknowns.py]). *)
Definition calculate_similarity (s1 s2 : string) : Q :=
  if negb (Py.truthy s1) || negb (Py.truthy s2) then 0%Q
  else
    let distance := levenshtein_distance s1 s2 in
    let max_len := Nat.max (String.length s1) (String.length s2) in
    (1 - (inject_Z (Z.of_nat distance) / inject_Z (Z.of_nat max_len)))%Q.

(* ------------------------------------------------------------------ *)
(** ** Python dicts, exceptions *)

Module Dict.

(** A Python [dict] with string keys, in insertion order. *)
Definition t (V : Type) := list (string * V).

Fixpoint get {V} (d : t V) (k : string) : option V :=
  match d with
  | [] => None
  | (k', v) :: d' => if String.eqb k k' then Some v else get d' k
  end.

(** [k in d] *)
Definition mem {V} (d : t V) (k : string) : bool :=
  match get d k with Some _ => true | None => false end.

(** [d[k] = v]: an existing key keeps its position, a new one is appended. *)
Fixpoint set {V} (d : t V) (k : string) (v : V) : t V :=
  match d with
  | [] => [(k, v)]
  | (k', v') :: d' => if String.eqb k k' then (k, v) :: d' else (k', v') :: set d' k v
  end.

(** [d.keys()] *)
Definition keys {V} (d : t V) : list string := map fst d.

End Dict.

Inductive PyExc := FileNotFoundError | JSONDecodeError | KeyError | IndexError.

(** A computation that returns a value or raises a Python exception. *)
Inductive Exc (A : Type) := Ok (a : A) | Raise (e : PyExc).
Arguments Ok {A} a.
Arguments Raise {A} e.

Definition bind {A B} (m : Exc A) (k : A -> Exc B) : Exc B :=
  match m with Ok a => k a | Raise e => Raise e end.

Notation "x <- m ;; k" := (bind m (fun x => k))
  (at level 61, m at next level, right associativity).

(** [d[k]] on a dict that may lack the key. *)
Definition req {A} (o : option A) : Exc A :=
  match o with Some a => Ok a | None => Raise KeyError end.

(** A JSON file on disk, as [json.load] sees it. *)
Inductive JsonFile (A : Type) := Missing | Malformed | Parsed (a : A).
Arguments Missing {A}.
Arguments Malformed {A}.
Arguments Parsed {A} a.

Definition read {A} (f : JsonFile A) : Exc A :=
  match f with
  | Missing => Raise FileNotFoundError
  | Malformed => Raise JSONDecodeError
  | Parsed a => Ok a
  end.

(* ------------------------------------------------------------------ *)
(** ** Catalog and correction table ([WPMBot.load_code_blocks]) *)

(** One record of [CodeBlocks.json]. *)
Record RawBlock := mkRawBlock {
  rb_title : option string;          (* block['title'] *)
  rb_language : option string;       (* block.get('language') *)
  rb_blocks : option (list string)   (* block['blocks'] *)
}.

(** The document of [ocr_corrections.json]. *)
Record CorrFile := mkCorrFile {
  cf_comment : option string;
  cf_corrections : option (Dict.t string)
}.

(** Catalog: lowercased title -> language -> code. *)
Definition Catalog := Dict.t (Dict.t string).

(** The [for block in blocks] loop building [lookup]. *)
Fixpoint build_lookup (lookup : Catalog) (blocks : list RawBlock) : Exc Catalog :=
  match blocks with
  | [] => Ok lookup
  | block :: rest =>
      t <- req (rb_title block) ;;
      let title := Py.lower t in
      let language := match rb_language block with Some l => l | None => "unknown" end in
      bs <- req (rb_blocks block) ;;
      let code := String.concat "" bs in
      let lookup := if Dict.mem lookup title then lookup else Dict.set lookup title [] in
      let inner := match Dict.get lookup title with Some v => v | None => [] end in
      build_lookup (Dict.set lookup title (Dict.set inner language code)) rest
  end.

(** [load_code_blocks]: the returned [lookup], and the [ocr_corrections]
    attribute ([None] when the method never sets it). Both [except]
    clauses return [{}]. *)
Definition load_code_blocks (codeblocks : JsonFile (list RawBlock))
    (corrections : JsonFile CorrFile) : Catalog * option (Dict.t string) :=
  let attempt :=
    blocks <- read codeblocks ;;
    lookup <- build_lookup [] blocks ;;
    corr <- match corrections with
            | Missing => Ok []
            | Malformed => Raise JSONDecodeError
            | Parsed d => Ok (match cf_corrections d with Some c => c | None => [] end)
            end ;;
    Ok (lookup, corr) in
  match attempt with
  | Ok (lookup, corr) => (lookup, Some corr)
  | Raise _ => ([], None)
  end.

(* ------------------------------------------------------------------ *)
(** ** Bot state *)

(** The [.txt] info file written for an unknown function. *)
Record UnknownRecord := mkUnknownRecord {
  ur_number : nat;                 (* self.unknown_count *)
  ur_timestamp : string;
  ur_function_name : string;
  ur_selected_language : option string
}.

Record Bot := mkBot {
  code_blocks : Catalog;
  ocr_corrections : option (Dict.t string);
  selected_language : option string;
  unknown_count : nat;
  history : list UnknownRecord     (* unknown_snippets_history/ *)
}.

(** [WPMBot.__init__] *)
Definition init (codeblocks : JsonFile (list RawBlock)) (corrections : JsonFile CorrFile) : Bot :=
  let (cb, corr) := load_code_blocks codeblocks corrections in
  mkBot cb corr None 0 [].

(** What the screen-reading and file-system collaborators answer. *)
Record Env := mkEnv {
  detected_language : string;      (* detect_language_from_screen() *)
  io_ok : bool;                    (* the history files can be written *)
  now : string                     (* the formatted timestamp *)
}.

(* ------------------------------------------------------------------ *)
(** ** Fuzzy matching ([WPMBot.fuzzy_match_function_name]) *)

(** Python's [a < b] on numbers. *)
Definition Qltb (a b : Q) : bool := negb (Qle_bool b a).

(** Python's [max(a, b)] on numbers. *)
Definition py_max (a b : Q) : Q := if Qltb a b then b else a.

Definition prefixes : list string := ["def"; "var"; "function"; "func"; "const"; "let"].

(** The [for prefix in [...]: if startswith: strip; break] loop. *)
Fixpoint strip_prefix (ps : list string) (s : string) : string :=
  match ps with
  | [] => s
  | p :: ps' => if Py.startswith s p then Py.drop (String.length p) s else strip_prefix ps' s
  end.

(** Score of one catalog name. *)
Definition score (boost : Q) (ocr_lower clean_ocr func_name : string) : Q :=
  let sim1 := calculate_similarity ocr_lower func_name in
  let sim2 := calculate_similarity clean_ocr func_name in
  let similarity := py_max sim1 sim2 in
  if Py.contains func_name clean_ocr || Py.contains clean_ocr func_name
  then py_max similarity boost else similarity.

(** The [for func_name in self.code_blocks.keys()] loop. *)
Fixpoint fuzzy_loop (ocr_lower clean_ocr : string) (names : list string)
    (best_match : option string) (best_score : Q) : option string :=
  match names with
  | [] => best_match
  | func_name :: rest =>
      let similarity := score (17 # 20) ocr_lower clean_ocr func_name in
      if Qltb best_score similarity && Qltb (3 # 5) similarity
      then fuzzy_loop ocr_lower clean_ocr rest (Some func_name) similarity
      else fuzzy_loop ocr_lower clean_ocr rest best_match best_score
  end.

Definition fuzzy_match_function_name (bot : Bot) (ocr_name : string) : option string :=
  if negb (Py.truthy ocr_name) then None else
  let ocr_lower := Py.lower ocr_name in
  match match ocr_corrections bot with
        | Some m => Dict.get m ocr_lower
        | None => None
        end with
  | Some corrected => Some corrected
  | None =>
      let clean_ocr := strip_prefix prefixes ocr_lower in
      match fuzzy_loop ocr_lower clean_ocr (Dict.keys (code_blocks bot)) None 0 with
      | Some m => if Py.truthy m then Some m else None
      | None => None
      end
  end.

(* ------------------------------------------------------------------ *)
(** ** Lookup ([WPMBot.get_code_from_database]) *)

(** [lang and lang in variants] *)
Definition lang_in (lang : option string) (variants : Dict.t string) : bool :=
  match lang with Some l => Py.truthy l && Dict.mem variants l | None => false end.

Definition variant (lang : option string) (variants : Dict.t string) : string :=
  match lang with
  | Some l => match Dict.get variants l with Some c => c | None => "" end
  | None => ""
  end.

(** [variants[list(variants.keys())[0]]] *)
Definition first_variant (variants : Dict.t string) : Exc string :=
  match variants with
  | (_, code) :: _ => Ok code
  | [] => Raise IndexError
  end.

(** [save_unknown_function_screenshot]: the counter is bumped before
    anything that can fail; the info file exists only if writing works. *)
Definition save_unknown_function_screenshot (env : Env) (bot : Bot) (function_name : string) : Bot :=
  let n := S (unknown_count bot) in
  let rec := mkUnknownRecord n (now env) function_name (selected_language bot) in
  mkBot (code_blocks bot) (ocr_corrections bot) (selected_language bot) n
        (if io_ok env then rec :: history bot else history bot).

(** The last-resort [for key in self.code_blocks.keys()] loop. *)
Fixpoint substring_match (func_name_lower : string) (cb : Catalog) : option (Dict.t string) :=
  match cb with
  | [] => None
  | (key, variants) :: rest =>
      if Py.contains func_name_lower key || Py.contains key func_name_lower
      then Some variants else substring_match func_name_lower rest
  end.

Definition get_code_from_database (env : Env) (bot : Bot) (function_name : string)
    (language_hint : option string) : Exc (option string * Bot) :=
  if negb (Py.truthy function_name) then Ok (None, bot) else
  let func_name_lower := Py.lower function_name in
  let sel := selected_language bot in
  match Dict.get (code_blocks bot) func_name_lower with
  | Some variants =>
      if lang_in sel variants then Ok (Some (variant sel variants), bot)
      else if lang_in language_hint variants then Ok (Some (variant language_hint variants), bot)
      else let detected_lang := detected_language env in
      if Dict.mem variants detected_lang then Ok (Some (variant (Some detected_lang) variants), bot)
      else c <- first_variant variants ;; Ok (Some c, bot)
  | None =>
      let corrected := fuzzy_match_function_name bot function_name in
      match match corrected with
            | Some c => if Py.truthy c then Dict.get (code_blocks bot) c else None
            | None => None
            end with
      | Some variants =>
          if lang_in sel variants then Ok (Some (variant sel variants), bot)
          else c <- first_variant variants ;; Ok (Some c, bot)
      | None =>
          match substring_match func_name_lower (code_blocks bot) with
          | Some variants => c <- first_variant variants ;; Ok (Some c, bot)
          | None => Ok (None, save_unknown_function_screenshot env bot function_name)
          end
      end
  end.

(* ------------------------------------------------------------------ *)
(** ** Maintenance tool ([src/add_ocr_correction.py]) *)

(** [add_correction(ocr_error, correct_name)]: read, update, write back
    [ocr_corrections.json]; the file after the call. *)
Definition add_correction (ocr_error correct_name : string) (file : JsonFile CorrFile)
  : Exc (JsonFile CorrFile) :=
  data <- match file with
          | Missing =>
              Ok (mkCorrFile (Some "Map common OCR errors to correct function names") (Some []))
          | _ => read file
          end ;;
  let ocr_lower := Py.lower ocr_error in
  let correct_lower := Py.lower correct_name in
  corrections <- req (cf_corrections data) ;;
  Ok (Parsed (mkCorrFile (cf_comment data) (Some (Dict.set corrections ocr_lower correct_lower)))).

(** The [__main__] block on [sys.argv]: listing leaves the file as it is,
    a wrong argument count prints the usage. *)
Definition main (argv : list string) (file : JsonFile CorrFile) : Exc (JsonFile CorrFile) :=
  match argv with
  | [_] => Ok file
  | [_; ocr_error; correct_name] => add_correction ocr_error correct_name file
  | _ => Ok file
  end.

(* ------------------------------------------------------------------ *)
(** ** Suggestions ([src/review_unknowns.py], [suggest_corrections]) *)

(** One step of a stable [sort(key=score, reverse=True)]. *)
Fixpoint insert_desc (m : string * Q) (l : list (string * Q)) : list (string * Q) :=
  match l with
  | [] => [m]
  | m' :: l' => if Qltb (snd m') (snd m) then m :: l else m' :: insert_desc m l'
  end.

Definition sort_desc (l : list (string * Q)) : list (string * Q) :=
  fold_left (fun acc m => insert_desc m acc) l [].

(** The [matches] list for one recorded [ocr_name] against [available]. *)
Definition review_matches (available : list string) (ocr_name : string) : list (string * Q) :=
  let clean_ocr := strip_prefix prefixes ocr_name in
  let matches :=
    flat_map (fun func =>
      let similarity := score (4 # 5) ocr_name clean_ocr func in
      if Qltb (1 # 2) similarity then [(func, similarity)] else [])
      available in
  sort_desc matches.

(** The suggestions printed: [matches[:5]]. *)
Definition top_suggestions (available : list string) (ocr_name : string) : list (string * Q) :=
  firstn 5 (review_matches available ocr_name).

(* ------------------------------------------------------------------ *)
(** ** The variant priority in the spec's words *)

(** [l] "present among variants": its body. *)
Definition present (l : option string) (variants : Dict.t string) : option string :=
  match l with Some x => Dict.get variants x | None => None end.

(** A language "present" only when it is a non-empty string
    (Python's [lang and ...] test). *)
Definition nonempty_lang (l : option string) : option string :=
  match l with Some x => if Py.truthy x then Some x else None | None => None end.

(** Spec 4.4 step 6: sticky selected language, then the request's hint,
    then the detected language, then the first variant. *)
Definition pick_by_priority (sel hint detected : option string) (variants : Dict.t string)
  : option string :=
  match present sel variants with
  | Some c => Some c
  | None =>
      match present hint variants with
      | Some c => Some c
      | None =>
          match present detected variants with
          | Some c => Some c
          | None => match variants with (_, c) :: _ => Some c | [] => None end
          end
      end
  end.

(* ------------------------------------------------------------------ *)
(** ** More Python string primitives *)

Module Py2.

Definition nl : ascii := "010"%char.

(** [c.isspace()] on ASCII: tab, LF, VT, FF, CR, FS, GS, RS, US, space. *)
Definition is_space (c : ascii) : bool :=
  let n := nat_of_ascii c in
  (Nat.leb 9 n && Nat.leb n 13) || (Nat.leb 28 n && Nat.leb n 32).

(** [c.isupper()] for one ASCII character. *)
Definition isupper (c : ascii) : bool :=
  let n := nat_of_ascii c in Nat.leb 65 n && Nat.leb n 90.

(** [c.upper()] for one ASCII character. *)
Definition upper_char (c : ascii) : ascii :=
  let n := nat_of_ascii c in
  if Nat.leb 97 n && Nat.leb n 122 then ascii_of_nat (n - 32) else c.

(** [s.upper()] *)
Fixpoint upper (s : string) : string :=
  match s with
  | EmptyString => EmptyString
  | String c s' => String (upper_char c) (upper s')
  end.

(** [s.lstrip()] *)
Fixpoint lstrip (s : string) : string :=
  match s with
  | EmptyString => EmptyString
  | String c s' => if is_space c then lstrip s' else s
  end.

(** [s.split(sep)] for a one-character separator. *)
Fixpoint split_on (sep : ascii) (s : string) : list string :=
  match s with
  | EmptyString => [""]
  | String c s' =>
      let rest := split_on sep s' in
      if Ascii.eqb c sep then "" :: rest
      else match rest with
           | l :: ls => String c l :: ls
           | [] => [String c ""]
           end
  end.

(** [s.count(c)] for one character. *)
Fixpoint count_char (c : ascii) (s : string) : nat :=
  match s with
  | EmptyString => 0
  | String d s' => (if Ascii.eqb d c then 1 else 0) + count_char c s'
  end.

End Py2.

(* ------------------------------------------------------------------ *)
(** ** Keystroke replay ([WPMBot.type_text]) *)

(** The key events sent through [ActionChains]. *)
Inductive Key :=
| Enter                 (* send_keys(Keys.ENTER) *)
| ShiftKey (c : ascii)  (* key_down(SHIFT).send_keys(c).key_up(SHIFT) *)
| Space                 (* send_keys(Keys.SPACE) *)
| Press (c : ascii).    (* send_keys(c) *)

Definition Key_eq_dec (a b : Key) : {a = b} + {a <> b}.
Proof. decide equality; apply ascii_dec. Defined.

(** The [for char in stripped_line] loop. *)
Fixpoint type_chars (s : string) : list Key :=
  match s with
  | EmptyString => []
  | String c s' =>
      (if Py2.isupper c then ShiftKey (Py.lower_char c)
       else if Ascii.eqb c " " then Space
       else Press c) :: type_chars s'
  end.

(** The [for line_idx, line in enumerate(lines)] loop; [line_idx < len(lines) - 1]
    holds exactly when lines remain after this one. *)
Fixpoint type_lines (lines : list string) : list Key :=
  match lines with
  | [] => []
  | line :: rest =>
      let stripped_line := Py2.lstrip line in
      let enter := match rest with [] => [] | _ :: _ => [Enter] end in
      if negb (Py.truthy stripped_line) then enter ++ type_lines rest
      else type_chars stripped_line ++ enter ++ type_lines rest
  end.

Definition type_text (text : string) : list Key := type_lines (Py2.split_on Py2.nl text).

(** The character a key event produces in the game's editor. *)
Definition key_char (k : Key) : ascii :=
  match k with
  | Enter => Py2.nl
  | ShiftKey c => Py2.upper_char c
  | Space => " "%char
  | Press c => c
  end.

Fixpoint typed_string (ks : list Key) : string :=
  match ks with
  | [] => EmptyString
  | k :: ks' => String (key_char k) (typed_string ks')
  end.

(** The value [get_code_from_database] returns, without the bot state. *)
Definition code_of (e : Exc (option string * Bot)) : Exc (option string) :=
  match e with Ok (r, _) => Ok r | Raise x => Raise x end.

(** What every catalog built from [CodeBlocks.json] satisfies: distinct
    lowercase titles, each with a non-empty dict of distinct languages. *)
Definition catalog_ok (cat : Catalog) : Prop :=
  NoDup (Dict.keys cat) /\
  forall k v, In (k, v) cat -> Py.lower k = k /\ v <> [] /\ NoDup (Dict.keys v).

(* ------------------------------------------------------------------ *)
(** ** [sorted] and [set] *)

Fixpoint insert_by {A} (le : A -> A -> bool) (x : A) (l : list A) : list A :=
  match l with
  | [] => [x]
  | y :: l' => if le x y then x :: l else y :: insert_by le x l'
  end.

(** Python's [sorted] for a total order whose equivalent elements are equal
    (strings; tuples of strings): every sorting algorithm gives the same
    list, here an insertion sort. *)
Definition sorted_by {A} (le : A -> A -> bool) (l : list A) : list A :=
  fold_right (insert_by le) [] l.

(** Python's [<=] on [(str, str)] tuples. *)
Definition pair_leb (a b : string * string) : bool :=
  match String.compare (fst a) (fst b) with
  | Lt => true
  | Gt => false
  | Eq => String.leb (snd a) (snd b)
  end.

(** A generator whose items may raise, consumed in order. *)
Fixpoint map_exc {A B} (f : A -> Exc B) (l : list A) : Exc (list B) :=
  match l with
  | [] => Ok []
  | x :: l' => y <- f x ;; ys <- map_exc f l' ;; Ok (y :: ys)
  end.

(** [load_available_functions] of [src/review_unknowns.py]:
    [sorted(set(b['title'].lower() for b in blocks))], no [try]. *)
Definition load_available_functions (codeblocks : JsonFile (list RawBlock)) : Exc (list string) :=
  blocks <- read codeblocks ;;
  titles <- map_exc (fun b => t <- req (rb_title b) ;; Ok (Py.lower t)) blocks ;;
  Ok (sorted_by String.leb (nodup string_dec titles)).

(** [list_corrections] of [src/add_ocr_correction.py]: the pairs printed, in
    order; [None] when it prints [No corrections file found.]. A malformed
    file is not caught. *)
Definition list_corrections (file : JsonFile CorrFile) : Exc (option (list (string * string))) :=
  match file with
  | Missing => Ok None
  | Malformed => Raise JSONDecodeError
  | Parsed data =>
      let corrections := match cf_corrections data with Some c => c | None => [] end in
      Ok (Some (sorted_by pair_leb corrections))
  end.

(** A small [CodeBlocks.json]: two variants of one function, one other. *)
Definition blocks3 : list RawBlock :=
  [mkRawBlock (Some "TwoSum") (Some "python") (Some ["def twoSum(nums, target):"]);
   mkRawBlock (Some "ThreeSum") (Some "python") (Some ["def threeSum(nums):"]);
   mkRawBlock (Some "twoSum") (Some "javascript") (Some ["var twoSum = function() {}"])].

(* ------------------------------------------------------------------ *)
(** ** The game ([WPMBot.start_game_sequence], [WPMBot.play_typing_challenge]) *)

(** [start_game_sequence(language, mode)]: the bot after it and the key
    events it sends to the menus. *)
Definition start_game_sequence (bot : Bot) (language mode : string) : Bot * list Key :=
  (mkBot (code_blocks bot) (ocr_corrections bot) (Some language)
         (unknown_count bot) (history bot),
   (type_text "start" ++ type_text (String Py2.nl "") ++
    type_text "no" ++ type_text (String Py2.nl "") ++
    type_text language ++ type_text (String Py2.nl "") ++
    type_text mode ++ type_text (String Py2.nl ""))%list).

(** What the screen shows while the loop runs: the result of the [k]-th call
    of [extract_function_name] (counted over the whole loop), the text OCR
    reads on the check screenshot of challenge [n], and the environment of
    the lookups of challenge [n]. *)
Record Screen := mkScreen {
  function_on_screen : nat -> option string;
  text_on_screen : nat -> string;
  env_at : nat -> Env
}.

(** What the loop does to the game. *)
Inductive Action :=
| Typed (name code : string)   (* self.type_text(code_text) for current_function *)
| PressEsc.                     (* ActionChains(...).send_keys(Keys.ESCAPE) *)

(** Python's [==] on [Optional[str]]. *)
Definition opt_eqb (a b : option string) : bool :=
  match a, b with
  | Some x, Some y => String.eqb x y
  | None, None => true
  | _, _ => false
  end.

Definition opt_truthy (a : option string) : bool :=
  match a with Some x => Py.truthy x | None => false end.

Section Loop.

Variable scr : Screen.

(** The [while challenge_count < max_challenges] loop; [fuel] is
    [max_challenges - challenge_count], [calls] counts the calls of
    [extract_function_name], [acts] is the actions so far. *)
Fixpoint challenge_loop (fuel count calls : nat) (prev_function_name : option string)
    (bot : Bot) (acts : list Action) : Exc (Bot * list Action) :=
  match fuel with
  | 0 => Ok (bot, acts)
  | S fuel' =>
      let count := S count in
      let first := function_on_screen scr calls in
      let '(current_function, calls, same) :=
        if opt_truthy first && opt_eqb first prev_function_name then
          let again := function_on_screen scr (S calls) in
          (again, S (S calls), opt_eqb again prev_function_name)
        else (first, S calls, false) in
      if same then Ok (bot, acts) else
      r <- match current_function with
           | Some f => if Py.truthy f then get_code_from_database (env_at scr count) bot f None
                       else Ok (None, bot)
           | None => Ok (None, bot)
           end ;;
      let '(code_text, bot) := r in
      let skip :=
        let full_text := Py2.upper (text_on_screen scr count) in
        if Py.contains "WPM" full_text || Py.contains "ACCURACY" full_text then Ok (bot, acts)
        else challenge_loop fuel' count calls prev_function_name bot (acts ++ [PressEsc])%list in
      match code_text with
      | Some c =>
          if negb (Py.truthy c) || Nat.ltb (String.length c) 10 then skip
          else match current_function with
               | Some f => challenge_loop fuel' count calls current_function bot (acts ++ [Typed f c])%list
               | None => skip
               end
      | None => skip
      end
  end.

Definition play_typing_challenge (bot : Bot) : Exc (Bot * list Action) :=
  challenge_loop 10 0 0 None bot [].

End Loop.

(** The function names typed, in order. *)
Definition typed_names (acts : list Action) : list string :=
  flat_map (fun a => match a with Typed n _ => [n] | PressEsc => [] end) acts.

(* ------------------------------------------------------------------ *)
(** ** The info file of an unknown function *)

(** [s.rstrip()] *)
Fixpoint rstrip (s : string) : string :=
  match s with
  | EmptyString => EmptyString
  | String c s' =>
      let r := rstrip s' in
      if Py2.is_space c && negb (Py.truthy r) then EmptyString else String c r
  end.

(** [s.strip()] *)
Definition strip (s : string) : string := rstrip (Py2.lstrip s).

(** [f"{x}"] for an [Optional[str]]. *)
Definition py_str (o : option string) : string :=
  match o with Some x => x | None => "None" end.

(** The text [save_unknown_function_screenshot] writes to the [.txt] file. *)
Definition info_file_text (bot : Bot) (timestamp function_name : string) : string :=
  let nl := String Py2.nl "" in
  "OCR Detected: " ++ function_name ++ nl ++
  "Timestamp: " ++ timestamp ++ nl ++
  "Selected Language: " ++ py_str (selected_language bot) ++ nl ++
  nl ++ "To add correction:" ++ nl ++
  "python add_ocr_correction.py '" ++ function_name ++ "' 'correct_name'" ++ nl ++
  nl ++ "Available functions:" ++ nl ++
  String.concat "" (map (fun func => "  - " ++ func ++ nl)
                        (sorted_by String.leb (Dict.keys (code_blocks bot)))).

(** [s.split(c, 1)[1]]: [IndexError] when [c] does not occur. *)
Fixpoint after_first (c : ascii) (s : string) : Exc string :=
  match s with
  | EmptyString => Raise IndexError
  | String d s' => if Ascii.eqb d c then Ok s' else after_first c s'
  end.

(** The [for line in content.split('\n')] loop of [suggest_corrections]:
    the recorded OCR name, or [None] for a file it skips ([continue]). *)
Fixpoint find_ocr_name (lines : list string) : Exc (option string) :=
  match lines with
  | [] => Ok None
  | line :: rest =>
      if Py.startswith line "OCR Detected:"
      then after <- after_first ":" line ;; Ok (Some (Py.lower (strip after)))
      else find_ocr_name rest
  end.

Definition read_ocr_name (content : string) : Exc (option string) :=
  find_ocr_name (Py2.split_on Py2.nl content).

(** Carriage return, [\r]. *)
Definition cr : ascii := "013"%char.

(** [f.read()] on a file opened in text mode ([open(txt_file)]), which
    uses universal newlines: a [\r\n] pair and a lone [\r] both become
    [\n]. The [.txt] contents below are the strings this read returns. *)
Fixpoint universal_newlines (s : string) : string :=
  match s with
  | EmptyString => EmptyString
  | String c s' =>
      if Ascii.eqb c cr then
        String Py2.nl
          (match s' with
           | String d s'' => if Ascii.eqb d Py2.nl then universal_newlines s''
                             else universal_newlines s'
           | EmptyString => EmptyString
           end)
      else String c (universal_newlines s')
  end.

(** The [for txt_file in txt_files] loop of [suggest_corrections]: the
    [suggestions] list, from the contents of the [.txt] files in order. *)
Fixpoint suggestion_loop (available : list string) (existing : Dict.t string)
    (contents : list string) : Exc (list (string * string)) :=
  match contents with
  | [] => Ok []
  | content :: rest =>
      found <- read_ocr_name content ;;
      match found with
      | None => suggestion_loop available existing rest
      | Some ocr_name =>
          if Dict.mem existing ocr_name then suggestion_loop available existing rest
          else match review_matches available ocr_name with
               | (best_match, _) :: _ =>
                   others <- suggestion_loop available existing rest ;;
                   Ok ((ocr_name, best_match) :: others)
               | [] => suggestion_loop available existing rest
               end
      end
  end.

(** [suggest_corrections]: [None] for a missing history folder; the
    correction table is [{}] on any error ([except:]). *)
Definition suggest_corrections (txt_files : option (list string))
    (codeblocks : JsonFile (list RawBlock)) (corrections : JsonFile CorrFile)
  : Exc (list (string * string)) :=
  match txt_files with
  | None => Ok []
  | Some [] => Ok []
  | Some contents =>
      available <- load_available_functions codeblocks ;;
      let existing :=
        match corrections with
        | Parsed d => match cf_corrections d with Some c => c | None => [] end
        | _ => []
        end in
      suggestion_loop available existing contents
  end.

(* ================================================================== *)
(** * Proofs *)

Example lev_kitten : levenshtein_distance "kitten" "sitting" = 3.
Proof. reflexivity. Qed.
Example lev_twosun : levenshtein_distance "twosun" "twosum" = 1.
Proof. reflexivity. Qed.
Example sim_sp : (calculate_similarity " searchinsert" "searchinsert" == 12 # 13)%Q.
Proof. reflexivity. Qed.

Module LevFacts.
Import Lev.
Local Open Scope list_scope.

Lemma ed_cons_cons x xs y ys :
  ed (x :: xs) (y :: ys) =
  Nat.min (Nat.min (ed xs (y :: ys) + 1) (ed (x :: xs) ys + 1)) (ed xs ys + neq x y).
Proof. reflexivity. Qed.

Lemma ed_nil_r xs : ed xs [] = length xs.
Proof. destruct xs; reflexivity. Qed.

Lemma neq_sym x y : neq x y = neq y x.
Proof.
  unfold neq. destruct (Ascii.eqb_spec x y), (Ascii.eqb_spec y x); congruence.
Qed.

Lemma neq_le x y : neq x y <= 1.
Proof. unfold neq. destruct (Ascii.eqb x y); lia. Qed.

Lemma neq_refl x : neq x x = 0.
Proof. unfold neq. rewrite Ascii.eqb_refl. reflexivity. Qed.

Lemma ed_sym xs ys : ed xs ys = ed ys xs.
Proof.
  revert ys. induction xs as [|x xs IH]; intros ys.
  - rewrite ed_nil_r. reflexivity.
  - induction ys as [|y ys IHy].
    + rewrite ed_nil_r. reflexivity.
    + rewrite !ed_cons_cons, IHy, (IH (y :: ys)), (IH ys), neq_sym. lia.
Qed.

Lemma ed_le_max xs ys : ed xs ys <= Nat.max (length xs) (length ys).
Proof.
  revert ys. induction xs as [|x xs IH]; intros ys.
  - simpl. lia.
  - induction ys as [|y ys IHy].
    + rewrite ed_nil_r. simpl. lia.
    + rewrite ed_cons_cons. specialize (IH ys). pose proof (neq_le x y).
      simpl length. lia.
Qed.

Lemma ed_ge_diff xs ys : length xs - length ys <= ed xs ys.
Proof.
  revert ys. induction xs as [|x xs IH]; intros ys.
  - simpl. lia.
  - induction ys as [|y ys IHy].
    + rewrite ed_nil_r. simpl. lia.
    + rewrite ed_cons_cons. pose proof (IH (y :: ys)). pose proof (IH ys).
      simpl length in *. lia.
Qed.

Lemma ed_refl xs : ed xs xs = 0.
Proof.
  induction xs as [|x xs IH]; [reflexivity|].
  rewrite ed_cons_cons, IH, neq_refl. lia.
Qed.

Lemma ed_zero xs ys : ed xs ys = 0 -> xs = ys.
Proof.
  revert ys. induction xs as [|x xs IH]; intros ys H.
  - destruct ys; [reflexivity | discriminate].
  - destruct ys as [|y ys]; [rewrite ed_nil_r in H; discriminate|].
    rewrite ed_cons_cons in H.
    assert (ed xs ys = 0 /\ neq x y = 0) as [H1 H2] by lia.
    unfold neq in H2. destruct (Ascii.eqb_spec x y); [|discriminate].
    subst. f_equal. apply IH; assumption.
Qed.

Lemma E_snoc a x b y :
  E (a ++ [x]) (b ++ [y]) =
  Nat.min (Nat.min (E a (b ++ [y]) + 1) (E (a ++ [x]) b + 1)) (E a b + neq x y).
Proof. unfold E. rewrite !rev_unit. apply ed_cons_cons. Qed.

Lemma E_nil_l b : E [] b = length b.
Proof. unfold E. simpl. apply length_rev. Qed.

Lemma E_nil_r a : E a [] = length a.
Proof. unfold E. simpl. rewrite ed_nil_r. apply length_rev. Qed.

Lemma E_sym a b : E a b = E b a.
Proof. unfold E. apply ed_sym. Qed.

Lemma pr_cons f b ys : pr f b ys = f b :: tl (pr f b ys).
Proof. destruct ys; reflexivity. Qed.

Lemma row_loop_pr a x ys b :
  row_loop x ys (pr (E a) b ys) (E (a ++ [x]) b) = tl (pr (E (a ++ [x])) b ys).
Proof.
  revert b. induction ys as [|y ys IH]; intros b; [reflexivity|].
  simpl pr at 1. rewrite (pr_cons (E a) (b ++ [y]) ys). simpl.
  rewrite <- E_snoc. rewrite <- pr_cons. rewrite IH.
  rewrite <- pr_cons. reflexivity.
Qed.

Lemma outer_pr s2 s1 a :
  outer s1 s2 (length a) (pr (E a) [] s2) = pr (E (a ++ s1)) [] s2.
Proof.
  revert a. induction s1 as [|x s1 IH]; intros a.
  - rewrite app_nil_r. reflexivity.
  - simpl.
    assert (Hl : S (length a) = E (a ++ [x]) []).
    { rewrite E_nil_r, length_app. simpl. lia. }
    assert (Hrow : S (length a) :: row_loop x s2 (pr (E a) [] s2) (S (length a))
                   = pr (E (a ++ [x])) [] s2).
    { rewrite Hl, row_loop_pr. symmetry. apply pr_cons. }
    rewrite Hrow.
    replace (S (length a)) with (length (a ++ [x])) by (rewrite length_app; simpl; lia).
    rewrite IH, <- app_assoc. reflexivity.
Qed.

Lemma seq_pr ys b : pr (E []) b ys = seq (length b) (length ys + 1).
Proof.
  revert b. induction ys as [|y ys IH]; intros b.
  - simpl. rewrite E_nil_l. reflexivity.
  - simpl pr. rewrite IH, E_nil_l, length_app. simpl.
    replace (length b + 1) with (S (length b)) by lia. reflexivity.
Qed.

Lemma last_pr f ys b d : last (pr f b ys) d = f (b ++ ys).
Proof.
  revert b. induction ys as [|y ys IH]; intros b.
  - rewrite app_nil_r. reflexivity.
  - simpl pr. rewrite (pr_cons f (b ++ [y]) ys).
    change (last (f b :: f (b ++ [y]) :: tl (pr f (b ++ [y]) ys)) d)
      with (last (f (b ++ [y]) :: tl (pr f (b ++ [y]) ys)) d).
    rewrite <- pr_cons, IH, <- app_assoc. reflexivity.
Qed.

Lemma core_E s1 s2 : core s1 s2 = E s1 s2.
Proof.
  unfold core. destruct (Nat.eqb_spec (length s2) 0) as [H|H].
  - apply length_zero_iff_nil in H. subst. rewrite E_nil_r. reflexivity.
  - replace (seq 0 (length s2 + 1)) with (pr (E []) [] s2)
      by (rewrite seq_pr; reflexivity).
    pose proof (outer_pr s2 s1 []) as Ho. simpl in Ho.
    rewrite Ho, last_pr. reflexivity.
Qed.

(** The row-by-row DP computes the edit distance. *)
Lemma levenshtein_list_E s1 s2 : levenshtein_list s1 s2 = E s1 s2.
Proof.
  unfold levenshtein_list. destruct (length s1 <? length s2);
    rewrite core_E; [apply E_sym | reflexivity].
Qed.

End LevFacts.

(** ** Small runs of the model *)

Definition cat2 : Catalog :=
  [("twosum", [("python", "def twoSum"); ("javascript", "var twoSum")])].

Definition bot_js : Bot := mkBot cat2 (Some []) (Some "javascript") 0 [].

Definition env0 : Env := mkEnv "python" true "20261018_120000".

Example run_exact :
  get_code_from_database env0 bot_js "TwoSum" (Some "python") = Ok (Some "var twoSum", bot_js).
Proof. reflexivity. Qed.

Example run_fuzzy :
  fuzzy_match_function_name bot_js "twosun" = Some "twosum".
Proof. vm_compute. reflexivity. Qed.

Example run_strip : strip_prefix prefixes "def searchinsert" = " searchinsert".
Proof. reflexivity. Qed.

(** ** Distance and similarity *)

Lemma length_list_ascii s : length (list_ascii_of_string s) = String.length s.
Proof. induction s; simpl; congruence. Qed.

Lemma levenshtein_distance_ed a b :
  levenshtein_distance a b =
  Lev.ed (rev (list_ascii_of_string a)) (rev (list_ascii_of_string b)).
Proof. unfold levenshtein_distance. rewrite LevFacts.levenshtein_list_E. reflexivity. Qed.

Lemma levenshtein_le_max a b :
  levenshtein_distance a b <= Nat.max (String.length a) (String.length b).
Proof.
  rewrite levenshtein_distance_ed, <- !length_list_ascii,
    <- (length_rev (list_ascii_of_string a)), <- (length_rev (list_ascii_of_string b)).
  apply LevFacts.ed_le_max.
Qed.

Lemma levenshtein_refl a : levenshtein_distance a a = 0.
Proof. rewrite levenshtein_distance_ed. apply LevFacts.ed_refl. Qed.

Lemma one_minus_frac_bounds (d m : nat) :
  d <= m -> 0 < m ->
  (0 <= 1 - inject_Z (Z.of_nat d) / inject_Z (Z.of_nat m) <= 1)%Q.
Proof.
  intros Hd Hm.
  assert (Hm' : (inject_Z 0 < inject_Z (Z.of_nat m))%Q) by (rewrite <- Zlt_Qlt; lia).
  assert (H0 : (0 <= inject_Z (Z.of_nat d) / inject_Z (Z.of_nat m))%Q).
  { apply Qle_shift_div_l; [assumption|].
    rewrite Qmult_0_l. change (inject_Z 0 <= inject_Z (Z.of_nat d))%Q.
    rewrite <- Zle_Qle. lia. }
  assert (H1 : (inject_Z (Z.of_nat d) / inject_Z (Z.of_nat m) <= 1)%Q).
  { apply Qle_shift_div_r; [assumption|].
    rewrite Qmult_1_l. rewrite <- Zle_Qle. lia. }
  split; lra.
Qed.

(** C6: [levenshtein_distance] is symmetric: distance(a, b) = distance(b, a)
    for all strings; the row-by-row DP equals the edit distance
    [Lev.ed] (minimum number of insertions, deletions, substitutions),
    which is symmetric. *)
Theorem levenshtein_distance_sym (a b : string) :
  levenshtein_distance a b = levenshtein_distance b a.
Proof.
  unfold levenshtein_distance. rewrite !LevFacts.levenshtein_list_E.
  apply LevFacts.E_sym.
Qed.

(** C4: [calculate_similarity a b] is 0 when either string is empty and
    otherwise 1 - distance / max(len a, len b); it always lies in [0, 1];
    [calculate_similarity a a] is 1 for non-empty [a]; and
    [calculate_similarity a ""] is 0. *)
Theorem calculate_similarity_spec (a b : string) :
  calculate_similarity a b =
    (if String.eqb a "" || String.eqb b "" then 0%Q
     else 1 - inject_Z (Z.of_nat (levenshtein_distance a b))
              / inject_Z (Z.of_nat (Nat.max (String.length a) (String.length b))))%Q
  /\ (0 <= calculate_similarity a b <= 1)%Q
  /\ (calculate_similarity a a == if String.eqb a "" then 0 else 1)%Q
  /\ calculate_similarity a "" = 0%Q.
Proof.
  assert (Hf : calculate_similarity a b =
    (if String.eqb a "" || String.eqb b "" then 0%Q
     else 1 - inject_Z (Z.of_nat (levenshtein_distance a b))
              / inject_Z (Z.of_nat (Nat.max (String.length a) (String.length b))))%Q).
  { unfold calculate_similarity. destruct a, b; reflexivity. }
  split; [exact Hf|]. split; [|split].
  - rewrite Hf. destruct (String.eqb a "" || String.eqb b "") eqn:He.
    + split; lra.
    + apply one_minus_frac_bounds; [apply levenshtein_le_max|].
      destruct a; [discriminate|]. cbn [String.length]. lia.
  - unfold calculate_similarity. destruct a as [|c a']; [reflexivity|].
    simpl Py.truthy. simpl negb. simpl orb. cbv zeta.
    rewrite levenshtein_refl. simpl String.eqb.
    change (inject_Z (Z.of_nat 0)) with 0%Q. unfold Qdiv. rewrite Qmult_0_l. lra.
  - unfold calculate_similarity. destruct a; reflexivity.
Qed.

(** ** Variant selection *)

Lemma lang_in_present {A} (l : option string) (v : Dict.t string) (x : string -> A) (k : A) :
  (if lang_in l v then x (variant l v) else k) =
  match present (nonempty_lang l) v with Some c => x c | None => k end.
Proof.
  destruct l as [l|]; [|reflexivity]. simpl.
  destruct l as [|ch l']; [reflexivity|].
  simpl. unfold Dict.mem. destruct (Dict.get v (String ch l')); reflexivity.
Qed.

Lemma mem_present {A} (d : string) (v : Dict.t string) (x : string -> A) (k : A) :
  (if Dict.mem v d then x (variant (Some d) v) else k) =
  match present (Some d) v with Some c => x c | None => k end.
Proof. unfold Dict.mem, variant, present. destruct (Dict.get v d); reflexivity. Qed.

Lemma first_variant_bind (v : Dict.t string) (bot : Bot) :
  v <> [] ->
  (c <- first_variant v ;; Ok (Some c, bot)) =
  Ok (match v with (_, c) :: _ => Some c | [] => None end, bot).
Proof. intros Hv. destruct v as [|[k c] v]; [congruence|reflexivity]. Qed.

(** A catalog entry with a variant tagged by the empty string, and a bot
    whose selected language is the empty string (an empty second
    command-line argument). *)
Definition cat_blank_variants : Dict.t string :=
  [("", "blank body"); ("python", "def twoSum")].

Definition bot_empty_sel : Bot :=
  mkBot [("twosum", cat_blank_variants)] (Some []) (Some "") 0 [].

Definition env_js : Env := mkEnv "javascript" true "20261018_120000".

(** C1 (amended): for a non-empty variants mapping, when the identifier is
    found by exact match the body follows the priority selected language,
    language hint, detected language, first variant, where an empty
    selected language or hint counts as absent (the detected language is
    used even if empty); when it is found through the correction table or
    fuzzy scoring, the body is the (non-empty) selected language's variant
    if present, else the first variant; when it is found only by the
    substring fallback, the body is always the first variant. With python
    and javascript variants and selected language javascript, an exact
    match returns the javascript body although the hint is python. *)
Theorem get_code_variant_priority (env : Env) (bot : Bot) (name : string)
    (hint : option string) (variants : Dict.t string)
    (Hname : Py.truthy name = true) (Hv : variants <> []) :
  (Dict.get (code_blocks bot) (Py.lower name) = Some variants ->
   get_code_from_database env bot name hint =
   Ok (pick_by_priority (nonempty_lang (selected_language bot)) (nonempty_lang hint)
         (Some (detected_language env)) variants, bot))
  /\ (forall c,
      Dict.get (code_blocks bot) (Py.lower name) = None ->
      fuzzy_match_function_name bot name = Some c -> Py.truthy c = true ->
      Dict.get (code_blocks bot) c = Some variants ->
      get_code_from_database env bot name hint =
      Ok (pick_by_priority (nonempty_lang (selected_language bot)) None None variants, bot))
  /\ (Dict.get (code_blocks bot) (Py.lower name) = None ->
      (forall c, fuzzy_match_function_name bot name = Some c -> Py.truthy c = true ->
                 Dict.get (code_blocks bot) c = None) ->
      substring_match (Py.lower name) (code_blocks bot) = Some variants ->
      get_code_from_database env bot name hint =
      Ok (pick_by_priority None None None variants, bot))
  /\ get_code_from_database env0 bot_js "twosum" (Some "python") = Ok (Some "var twoSum", bot_js).
Proof.
  split; [|split; [|split]].
  - intros Hget. unfold get_code_from_database. rewrite Hname, Hget. simpl negb. cbv iota.
    rewrite (lang_in_present (selected_language bot) variants (fun c => Ok (Some c, bot))).
    rewrite (lang_in_present hint variants (fun c => Ok (Some c, bot))).
    rewrite (mem_present (detected_language env) variants (fun c => Ok (Some c, bot))).
    rewrite (first_variant_bind variants bot Hv).
    unfold pick_by_priority.
    destruct (present (nonempty_lang (selected_language bot)) variants); [reflexivity|].
    destruct (present (nonempty_lang hint) variants); [reflexivity|].
    destruct (present (Some (detected_language env)) variants); reflexivity.
  - intros c Hget Hf Hc Hgc. unfold get_code_from_database. rewrite Hname, Hget, Hf, Hc, Hgc.
    simpl negb. cbv iota.
    rewrite (lang_in_present (selected_language bot) variants (fun c => Ok (Some c, bot))).
    rewrite (first_variant_bind variants bot Hv).
    unfold pick_by_priority. simpl present.
    destruct (present (nonempty_lang (selected_language bot)) variants); reflexivity.
  - intros Hget Hnf Hsub. unfold get_code_from_database. rewrite Hname, Hget.
    simpl negb. cbv iota.
    assert (Hfz : match fuzzy_match_function_name bot name with
                  | Some c => if Py.truthy c then Dict.get (code_blocks bot) c else None
                  | None => None end = None).
    { destruct (fuzzy_match_function_name bot name) as [c|] eqn:Ef; [|reflexivity].
      destruct (Py.truthy c) eqn:Ec; [exact (Hnf c eq_refl Ec) | reflexivity]. }
    cbv zeta. rewrite Hfz, Hsub. rewrite (first_variant_bind variants bot Hv). reflexivity.
  - reflexivity.
Qed.

Lemma get_code_variant_priority_witness :
  Py.truthy "TwoSum" = true /\ [("python", "def twoSum"); ("javascript", "var twoSum")] <> []
  /\ get_code_from_database env0 bot_js "TwoSum" (Some "python") =
     Ok (pick_by_priority (Some "javascript") (Some "python") (Some "python")
           [("python", "def twoSum"); ("javascript", "var twoSum")], bot_js)
  /\ get_code_from_database env0 bot_empty_sel "twosum" None =
     Ok (pick_by_priority None None (Some "python") cat_blank_variants, bot_empty_sel).
Proof.
  split; [reflexivity|]. split; [discriminate|]. split.
  - destruct (get_code_variant_priority env0 bot_js "TwoSum" (Some "python")
                [("python", "def twoSum"); ("javascript", "var twoSum")]
                eq_refl ltac:(discriminate)) as [H _].
    apply H. reflexivity.
  - destruct (get_code_variant_priority env0 bot_empty_sel "twosum" None
                cat_blank_variants eq_refl ltac:(discriminate)) as [H _].
    apply H. reflexivity.
Defined.

(** C1 fails as stated: an identifier found by fuzzy scoring ("twosun" for
    "twosum") with no selected language and hint javascript gets its first
    (python) body, while the stated priority picks the hinted javascript body.
    Also, an empty selected language is skipped even when a variant is
    tagged with the empty string, which the stated priority would pick. *)
Lemma variant_priority_counterexample :
  get_code_from_database env_js (mkBot cat2 (Some []) None 0 []) "twosun" (Some "javascript")
    = Ok (Some "def twoSum", mkBot cat2 (Some []) None 0 [])
  /\ pick_by_priority None (Some "javascript") (Some "javascript")
       [("python", "def twoSum"); ("javascript", "var twoSum")] = Some "var twoSum"
  /\ get_code_from_database env0 bot_empty_sel "twosum" None = Ok (Some "def twoSum", bot_empty_sel)
  /\ pick_by_priority (Some "") None (Some "python") cat_blank_variants = Some "blank body".
Proof. repeat split; vm_compute; reflexivity. Qed.

(** ** Correction stage *)

Definition cat_twosum : Catalog := [("twosum", [("python", "def twoSum")])].

Definition bot_bad_corr : Bot := mkBot cat_twosum (Some [("twosun", "nothere")]) None 0 [].

(** C2 (code bug): a correction entry whose target is not a Catalog key
    does not let resolution reach fuzzy scoring: for "twosun" mapped to
    "nothere", [get_code_from_database] finds nothing and records an unknown
    function, although fuzzy scoring over the Catalog (the same bot without
    that entry) resolves "twosun" to "twosum". *)
Theorem correction_to_nonkey_skips_fuzzy :
  fuzzy_match_function_name bot_bad_corr "twosun" = Some "nothere"
  /\ get_code_from_database env0 bot_bad_corr "twosun" None
     = Ok (None, mkBot cat_twosum (Some [("twosun", "nothere")]) None 1
                   [mkUnknownRecord 1 "20261018_120000" "twosun" None])
  /\ fuzzy_match_function_name (mkBot cat_twosum (Some []) None 0 []) "twosun" = Some "twosum"
  /\ get_code_from_database env0 (mkBot cat_twosum (Some []) None 0 []) "twosun" None
     = Ok (Some "def twoSum", mkBot cat_twosum (Some []) None 0 []).
Proof. repeat split; vm_compute; reflexivity. Qed.

(** ** Catalog loading *)

Lemma build_lookup_raise (blocks : list RawBlock) :
  forall lookup,
  (exists b, In b blocks /\ (rb_title b = None \/ rb_blocks b = None)) ->
  exists e, build_lookup lookup blocks = Raise e.
Proof.
  induction blocks as [|b0 rest IH]; intros lookup [b [Hin Hb]]; [destruct Hin|].
  simpl. destruct (rb_title b0) as [t|] eqn:Ht; [|eexists; reflexivity].
  simpl. destruct (rb_blocks b0) as [bs|] eqn:Hbs; [|eexists; reflexivity].
  simpl. apply IH. exists b. split; [|assumption].
  destruct Hin as [<-|Hin]; [|assumption].
  exfalso. destruct Hb; congruence.
Qed.

(** C3 (amended): loading never fails: when [CodeBlocks.json] is missing,
    is not valid JSON, or has a record without [title] or [blocks],
    [load_code_blocks] returns an empty Catalog (and leaves
    [ocr_corrections] unset), and the bot is constructed with it. *)
Theorem load_code_blocks_falls_back_to_empty (corr : JsonFile CorrFile) :
  load_code_blocks Missing corr = ([], None)
  /\ load_code_blocks Malformed corr = ([], None)
  /\ (forall blocks,
        (exists b, In b blocks /\ (rb_title b = None \/ rb_blocks b = None)) ->
        load_code_blocks (Parsed blocks) corr = ([], None))
  /\ init Missing corr = mkBot [] None None 0 []
  /\ init Malformed corr = mkBot [] None None 0 [].
Proof.
  split; [reflexivity|]. split; [reflexivity|]. split; [|split; reflexivity].
  intros blocks Hb. destruct (build_lookup_raise blocks [] Hb) as [e He].
  unfold load_code_blocks. simpl. rewrite He. reflexivity.
Qed.

(** C3 fails as stated: with the snapshot missing, construction succeeds
    with an empty Catalog instead of failing. *)
Lemma load_missing_counterexample :
  load_code_blocks Missing Missing = ([], None)
  /\ init Missing Missing = mkBot [] None None 0 []
  /\ code_blocks (init Missing Missing) = [].
Proof. repeat split. Qed.

(** ** Fuzzy stage *)

Lemma Qltb_spec a b : Qltb a b = true <-> (a < b)%Q.
Proof.
  unfold Qltb. rewrite negb_true_iff. split.
  - intros H. apply Qnot_le_lt. intros Hle. apply Qle_bool_iff in Hle. congruence.
  - intros H. destruct (Qle_bool b a) eqn:E; [|reflexivity].
    apply Qle_bool_iff in E. exfalso. apply (Qlt_not_le a b); assumption.
Qed.

Lemma dict_get_in {V} (d : Dict.t V) k :
  In k (Dict.keys d) -> exists v, Dict.get d k = Some v /\ In (k, v) d.
Proof.
  induction d as [|[k' v'] d IH]; simpl; [tauto|].
  intros Hk. destruct (String.eqb_spec k k') as [->|Hne].
  - exists v'. auto.
  - destruct Hk as [->|Hk]; [congruence|].
    destruct (IH Hk) as [v [Hg Hi]]. exists v. auto.
Qed.

Lemma fuzzy_loop_keeps o c names m bs :
  exists m', fuzzy_loop o c names (Some m) bs = Some m' /\ (m' = m \/ In m' names).
Proof.
  revert m bs. induction names as [|f rest IH]; intros m bs; simpl.
  - eauto.
  - destruct (_ && _).
    + destruct (IH f (score (17 # 20) o c f)) as [m' [H1 H2]]. exists m'.
      split; [assumption|]. right. destruct H2; auto.
    + destruct (IH m bs) as [m' [H1 H2]]. exists m'. split; [assumption|].
      destruct H2; auto.
Qed.

(** Some name scoring above the 0.6 threshold makes the loop accept a name. *)
Lemma fuzzy_loop_finds o c names k :
  In k names -> Qltb (3 # 5) (score (17 # 20) o c k) = true ->
  exists m, fuzzy_loop o c names None 0 = Some m /\ In m names.
Proof.
  induction names as [|f rest IH]; intros Hin Hk; [destruct Hin|]. simpl.
  destruct (Qltb 0 (score (17 # 20) o c f) && Qltb (3 # 5) (score (17 # 20) o c f)) eqn:Hsel.
  - destruct (fuzzy_loop_keeps o c rest f (score (17 # 20) o c f)) as [m [H1 H2]].
    exists m. split; [assumption|]. destruct H2; auto.
  - destruct Hin as [->|Hin].
    + exfalso. rewrite Hk, andb_true_r in Hsel.
      apply Qltb_spec in Hk. assert (H0 : Qltb 0 (score (17 # 20) o c k) = true).
      { apply Qltb_spec. apply Qlt_trans with (3 # 5); [reflexivity|assumption]. }
      congruence.
    + destruct (IH Hin Hk) as [m [H1 H2]]. eauto.
Qed.

(** C5 (amended): prefix stripping removes just the letters "def", so
    "def searchinsert" becomes " searchinsert" (leading space kept), whose
    similarity to "searchinsert" is 12/13, not 1; the substring boost
    applies and the score stays 12/13 > 0.6. Hence, with an empty
    Correction Table and a Catalog that has "searchinsert" but not
    "def searchinsert" (no empty key, no empty variants), the fuzzy stage
    accepts a Catalog identifier and resolution returns a source body. *)
Theorem def_searchinsert_resolves_by_fuzzy (env : Env) (bot : Bot) (hint : option string)
    (Hcorr : ocr_corrections bot = Some [] \/ ocr_corrections bot = None)
    (Hkey : In "searchinsert" (Dict.keys (code_blocks bot)))
    (Hraw : Dict.get (code_blocks bot) "def searchinsert" = None)
    (Hempty : ~ In "" (Dict.keys (code_blocks bot)))
    (Hvar : Forall (fun kv => snd kv <> []) (code_blocks bot)) :
  strip_prefix prefixes "def searchinsert" = " searchinsert"
  /\ (calculate_similarity (strip_prefix prefixes "def searchinsert") "searchinsert" == 12 # 13)%Q
  /\ Py.contains "searchinsert" " searchinsert" = true
  /\ (score (17 # 20) "def searchinsert" " searchinsert" "searchinsert" == 12 # 13)%Q
  /\ (exists k, fuzzy_match_function_name bot "def searchinsert" = Some k
        /\ In k (Dict.keys (code_blocks bot))
        /\ exists src, get_code_from_database env bot "def searchinsert" hint
                       = Ok (Some src, bot)).
Proof.
  split; [reflexivity|]. split; [vm_compute; reflexivity|].
  split; [reflexivity|]. split; [vm_compute; reflexivity|].
  assert (Hlow : Py.lower "def searchinsert" = "def searchinsert") by reflexivity.
  assert (Hfz : exists k, fuzzy_match_function_name bot "def searchinsert" = Some k
                          /\ In k (Dict.keys (code_blocks bot))).
  { destruct (fuzzy_loop_finds "def searchinsert" " searchinsert"
                (Dict.keys (code_blocks bot)) "searchinsert" Hkey eq_refl) as [m [Hm Hin]].
    exists m. split; [|assumption].
    unfold fuzzy_match_function_name. rewrite Hlow.
    replace (match ocr_corrections bot with
             | Some m0 => Dict.get m0 "def searchinsert" | None => None end) with (@None string)
      by (destruct Hcorr as [-> | ->]; reflexivity).
    change (strip_prefix prefixes "def searchinsert") with " searchinsert".
    simpl negb. cbv iota. rewrite Hm.
    destruct m as [|ch m']; [contradiction|reflexivity]. }
  destruct Hfz as [k [Hk Hin]]. exists k. split; [assumption|]. split; [assumption|].
  destruct (dict_get_in (code_blocks bot) k Hin) as [v [Hg Hkv]].
  assert (Hv : v <> []) by (rewrite Forall_forall in Hvar; exact (Hvar (k, v) Hkv)).
  assert (Hkt : Py.truthy k = true) by (destruct k; [contradiction|reflexivity]).
  unfold get_code_from_database. rewrite Hlow, Hraw, Hk, Hkt, Hg. simpl negb. cbv iota.
  destruct (lang_in (selected_language bot) v); [eexists; reflexivity|].
  destruct v as [|[l c] v]; [congruence|]. eexists; reflexivity.
Qed.

Definition cat_search : Catalog :=
  [("twosum", [("python", "def twoSum")]); ("searchinsert", [("python", "def searchInsert")])].

Lemma def_searchinsert_resolves_by_fuzzy_witness :
  exists k, fuzzy_match_function_name (mkBot cat_search (Some []) None 0 []) "def searchinsert" = Some k
    /\ In k (Dict.keys cat_search)
    /\ exists src, get_code_from_database env0 (mkBot cat_search (Some []) None 0 [])
                     "def searchinsert" None = Ok (Some src, mkBot cat_search (Some []) None 0 []).
Proof.
  destruct (def_searchinsert_resolves_by_fuzzy env0 (mkBot cat_search (Some []) None 0 []) None
              (or_introl eq_refl) (or_intror (or_introl eq_refl)) eq_refl
              ltac:(simpl; intuition discriminate)
              ltac:(repeat constructor; discriminate)) as [_ [_ [_ [_ H]]]].
  exact H.
Defined.

(** C5 fails as stated: the cleaned candidate keeps the space and its
    similarity to "searchinsert" is not 1. *)
Lemma def_searchinsert_counterexample :
  strip_prefix prefixes "def searchinsert" <> "searchinsert"
  /\ ~ (calculate_similarity (strip_prefix prefixes "def searchinsert") "searchinsert" == 1)%Q.
Proof. split; [discriminate|]. vm_compute. discriminate. Qed.

(** ** Unresolved candidates *)

(** C7 (amended): when no stage accepts an identifier (no exact key, the
    correction/fuzzy stage yields no Catalog key, no substring match),
    [get_code_from_database] returns [None], with no suggestion list, and
    [save_unknown_function_screenshot] increments [unknown_count] by one;
    when the history can be written, a record numbered with the new count
    is added to it. *)
Theorem unresolved_records_unknown (env : Env) (bot : Bot) (name : string)
    (hint : option string)
    (Hname : Py.truthy name = true)
    (Hexact : Dict.get (code_blocks bot) (Py.lower name) = None)
    (Hfuzzy : forall c, fuzzy_match_function_name bot name = Some c ->
              Py.truthy c = true -> Dict.get (code_blocks bot) c = None)
    (Hsub : substring_match (Py.lower name) (code_blocks bot) = None) :
  exists bot',
    get_code_from_database env bot name hint = Ok (None, bot')
    /\ unknown_count bot' = S (unknown_count bot)
    /\ history bot' =
       (if io_ok env
        then mkUnknownRecord (S (unknown_count bot)) (now env) name (selected_language bot)
             :: history bot
        else history bot)
    /\ code_blocks bot' = code_blocks bot
    /\ selected_language bot' = selected_language bot.
Proof.
  exists (save_unknown_function_screenshot env bot name).
  assert (Hf : match fuzzy_match_function_name bot name with
               | Some c => if Py.truthy c then Dict.get (code_blocks bot) c else None
               | None => None end = None).
  { destruct (fuzzy_match_function_name bot name) as [c|] eqn:Hc; [|reflexivity].
    destruct (Py.truthy c) eqn:Ht; [|reflexivity]. exact (Hfuzzy c eq_refl Ht). }
  unfold get_code_from_database. rewrite Hname, Hexact, Hf, Hsub.
  repeat split; reflexivity.
Qed.

Lemma unresolved_records_unknown_witness :
  exists bot',
    get_code_from_database env0 (mkBot cat_twosum (Some []) None 4 []) "zzzzzzzzzz" None
      = Ok (None, bot')
    /\ unknown_count bot' = 5
    /\ history bot' = [mkUnknownRecord 5 "20261018_120000" "zzzzzzzzzz" None]
    /\ code_blocks bot' = cat_twosum /\ selected_language bot' = None.
Proof.
  refine (unresolved_records_unknown env0 (mkBot cat_twosum (Some []) None 4 []) "zzzzzzzzzz" None
            eq_refl eq_refl _ eq_refl).
  intros c Hc. vm_compute in Hc. discriminate.
Defined.

(** C7 fails as stated: the result carries no suggestions, and for
    "zzzzzzzzzz" against a Catalog with "twosum" the only suggestion list
    the repository computes (the review tool's) is empty. *)
Lemma unresolved_counterexample :
  get_code_from_database env0 (mkBot cat_twosum (Some []) None 0 []) "zzzzzzzzzz" None
    = Ok (None, mkBot cat_twosum (Some []) None 1
                  [mkUnknownRecord 1 "20261018_120000" "zzzzzzzzzz" None])
  /\ top_suggestions ["twosum"] "zzzzzzzzzz" = [].
Proof. split; vm_compute; reflexivity. Qed.

(** ** Correction table maintenance *)

Module DictFacts.

Lemma in_keys_set {V} (m : Dict.t V) k v x :
  In x (Dict.keys (Dict.set m k v)) <-> k = x \/ In x (Dict.keys m).
Proof.
  induction m as [|[k' v'] m IH]; simpl; [tauto|].
  destruct (String.eqb_spec k k') as [->|Hne]; simpl; [tauto|].
  rewrite IH. tauto.
Qed.

Lemma nodup_set {V} (m : Dict.t V) k v :
  NoDup (Dict.keys m) -> NoDup (Dict.keys (Dict.set m k v)).
Proof.
  induction m as [|[k' v'] m IH]; simpl; intros Hnd.
  - constructor; [tauto|constructor].
  - destruct (String.eqb_spec k k') as [->|Hne]; [exact Hnd|].
    inversion Hnd as [|? ? Hnin Hnd']; subst. simpl. constructor.
    + rewrite in_keys_set. intros [H|H]; [congruence|contradiction].
    + apply IH. assumption.
Qed.

Lemma get_set {V} (m : Dict.t V) k v : Dict.get (Dict.set m k v) k = Some v.
Proof.
  induction m as [|[k' v'] m IH]; simpl; [rewrite String.eqb_refl; reflexivity|].
  destruct (String.eqb_spec k k') as [->|Hne]; simpl.
  - rewrite String.eqb_refl. reflexivity.
  - apply String.eqb_neq in Hne. rewrite Hne. exact IH.
Qed.

Lemma set_set {V} (m : Dict.t V) k v : Dict.set (Dict.set m k v) k v = Dict.set m k v.
Proof.
  induction m as [|[k' v'] m IH]; simpl; [rewrite String.eqb_refl; reflexivity|].
  destruct (String.eqb_spec k k') as [->|Hne]; simpl.
  - rewrite String.eqb_refl. reflexivity.
  - apply String.eqb_neq in Hne. rewrite Hne, IH. reflexivity.
Qed.

Lemma count_set {V} (m : Dict.t V) k v :
  NoDup (Dict.keys m) -> count_occ string_dec (Dict.keys (Dict.set m k v)) k = 1.
Proof.
  intros Hnd. pose proof (nodup_set m k v Hnd) as Hnd'.
  rewrite (NoDup_count_occ string_dec) in Hnd'. specialize (Hnd' k).
  assert (Hin : In k (Dict.keys (Dict.set m k v))) by (apply in_keys_set; auto).
  rewrite (count_occ_In string_dec) in Hin. lia.
Qed.

Lemma in_keys_set_pair {V} (m : Dict.t V) k v : In (k, v) (Dict.set m k v).
Proof.
  induction m as [|[k' v'] m IH]; simpl; [left; reflexivity|].
  destruct (String.eqb k k'); simpl; auto.
Qed.

End DictFacts.

Definition default_comment : string := "Map common OCR errors to correct function names".

(** C8 (amended): [add_correction] validates nothing: for any arguments,
    empty strings included, it stores (ocr_error.lower(), correct_name.lower())
    in the corrections mapping (creating the file with a comment when it is
    absent) and writes the table back; the command line passes two
    arguments, empty or not, straight to it. A file that is not JSON or has
    no [corrections] key makes it raise. *)
Theorem add_correction_no_validation (x y : string) (c : option string)
    (m : Dict.t string) (f : JsonFile CorrFile) (prog : string) :
  add_correction x y Missing
    = Ok (Parsed (mkCorrFile (Some default_comment) (Some [(Py.lower x, Py.lower y)])))
  /\ add_correction x y (Parsed (mkCorrFile c (Some m)))
    = Ok (Parsed (mkCorrFile c (Some (Dict.set m (Py.lower x) (Py.lower y)))))
  /\ add_correction x y Malformed = Raise JSONDecodeError
  /\ add_correction x y (Parsed (mkCorrFile c None)) = Raise KeyError
  /\ main [prog; x; y] f = add_correction x y f.
Proof. repeat split. Qed.

(** C8 fails as stated: an empty OCR text is accepted and stored. *)
Lemma add_correction_empty_counterexample :
  add_correction "" "twosum" Missing
    = Ok (Parsed (mkCorrFile (Some default_comment) (Some [("", "twosum")])))
  /\ main ["add_ocr_correction.py"; ""; "twosum"] (Parsed (mkCorrFile None (Some [])))
    = Ok (Parsed (mkCorrFile None (Some [("", "twosum")]))).
Proof. split; reflexivity. Qed.

(** C9: calling [add_correction x y] twice leaves the file as one call does,
    with exactly one entry for the key [x.lower()] (that is [x] for a
    lowercase [x]), mapped to [y.lower()]; this holds from an absent file
    or from any loaded corrections mapping (whose keys are distinct). *)
Theorem add_correction_idempotent (x y : string) (f : JsonFile CorrFile)
    (Hf : f = Missing \/ exists c m, f = Parsed (mkCorrFile c (Some m)) /\ NoDup (Dict.keys m)) :
  exists c' m',
    add_correction x y f = Ok (Parsed (mkCorrFile c' (Some m')))
    /\ (r <- add_correction x y f ;; add_correction x y r) = add_correction x y f
    /\ count_occ string_dec (Dict.keys m') (Py.lower x) = 1
    /\ Dict.get m' (Py.lower x) = Some (Py.lower y)
    /\ NoDup (Dict.keys m').
Proof.
  destruct Hf as [->|[c [m [-> Hnd]]]].
  - exists (Some default_comment), [(Py.lower x, Py.lower y)].
    split; [reflexivity|].
    split; [cbv [bind add_correction read req cf_corrections cf_comment];
            rewrite DictFacts.set_set; reflexivity|].
    split; [simpl; destruct (string_dec (Py.lower x) (Py.lower x)); congruence|].
    split; [simpl; rewrite String.eqb_refl; reflexivity|].
    constructor; [tauto|constructor].
  - exists c, (Dict.set m (Py.lower x) (Py.lower y)).
    split; [reflexivity|]. split.
    + cbv [bind add_correction read req cf_corrections cf_comment].
      rewrite DictFacts.set_set. reflexivity.
    + split; [apply DictFacts.count_set; assumption|].
      split; [apply DictFacts.get_set|apply DictFacts.nodup_set; assumption].
Qed.

Lemma add_correction_idempotent_witness :
  exists c' m',
    add_correction "twosun" "twosum" (Parsed (mkCorrFile None (Some [("abc", "abd")])))
      = Ok (Parsed (mkCorrFile c' (Some m')))
    /\ (r <- add_correction "twosun" "twosum" (Parsed (mkCorrFile None (Some [("abc", "abd")]))) ;;
        add_correction "twosun" "twosum" r)
       = add_correction "twosun" "twosum" (Parsed (mkCorrFile None (Some [("abc", "abd")])))
    /\ count_occ string_dec (Dict.keys m') (Py.lower "twosun") = 1
    /\ Dict.get m' (Py.lower "twosun") = Some (Py.lower "twosum")
    /\ NoDup (Dict.keys m').
Proof.
  apply (add_correction_idempotent "twosun" "twosum").
  right. exists None, [("abc", "abd")]. split; [reflexivity|].
  constructor; [tauto|constructor].
Defined.

(** ** Candidates that are a bare prefix token *)

Lemma py_max_ge_r a b : (b <= py_max a b)%Q.
Proof.
  unfold py_max. destruct (Qltb a b) eqn:H; [apply Qle_refl|].
  apply Qnot_lt_le. intros Hlt. apply Qltb_spec in Hlt. congruence.
Qed.

Lemma py_max_le a b c : (a <= c)%Q -> (b <= c)%Q -> (py_max a b <= c)%Q.
Proof. unfold py_max. destruct (Qltb a b); auto. Qed.

Lemma lev_pos a b : a <> b -> 1 <= levenshtein_distance a b.
Proof.
  intros Hne. rewrite levenshtein_distance_ed.
  destruct (Lev.ed _ _) eqn:He; [|lia].
  exfalso. apply Hne. apply LevFacts.ed_zero in He.
  apply (f_equal (@rev ascii)) in He. rewrite !rev_involutive in He.
  rewrite <- (string_of_list_ascii_of_string a), <- (string_of_list_ascii_of_string b), He.
  reflexivity.
Qed.

Lemma lev_swap a b : levenshtein_distance a b = levenshtein_distance b a.
Proof.
  unfold levenshtein_distance. rewrite !LevFacts.levenshtein_list_E. apply LevFacts.E_sym.
Qed.

Lemma lev_ge_diff a b : String.length b - String.length a <= levenshtein_distance a b.
Proof.
  rewrite lev_swap, levenshtein_distance_ed, <- !length_list_ascii,
    <- (length_rev (list_ascii_of_string a)), <- (length_rev (list_ascii_of_string b)).
  apply LevFacts.ed_ge_diff.
Qed.

(** A token of at most five letters is at most 0.85-similar to any other string. *)
Lemma similarity_short_le (tok f : string) :
  String.length tok <= 5 -> f <> tok -> (calculate_similarity tok f <= 17 # 20)%Q.
Proof.
  intros Hlen Hne. unfold calculate_similarity.
  destruct (negb (Py.truthy tok) || negb (Py.truthy f)) eqn:Ht; [discriminate|].
  assert (Htok : tok <> "") by (intros ->; discriminate).
  assert (Hf : f <> "") by (intros ->; rewrite orb_true_r in Ht; discriminate).
  pose proof (lev_pos tok f (not_eq_sym Hne)) as H1.
  pose proof (lev_ge_diff tok f) as H2.
  set (d := levenshtein_distance tok f) in *.
  set (m := Nat.max (String.length tok) (String.length f)).
  assert (Hm : 0 < m) by (destruct tok; [congruence|]; unfold m; cbn [String.length]; lia).
  assert (Hdm : 3 * m <= 20 * d) by (unfold m; lia).
  assert (Hq : (3 # 20 <= inject_Z (Z.of_nat d) / inject_Z (Z.of_nat m))%Q).
  { apply Qle_shift_div_l.
    - change 0%Q with (inject_Z 0). rewrite <- Zlt_Qlt. lia.
    - unfold Qle, Qmult. cbn [Qnum Qden inject_Z]. rewrite Z.mul_1_r. lia. }
  cbv zeta. lra.
Qed.

Lemma score_empty_clean_le tok f :
  (calculate_similarity tok f <= 17 # 20)%Q -> (score (17 # 20) tok "" f <= 17 # 20)%Q.
Proof.
  intros H. unfold score.
  replace (calculate_similarity "" f) with 0%Q by reflexivity.
  assert (Hx : (py_max (calculate_similarity tok f) 0 <= 17 # 20)%Q)
    by (apply py_max_le; [assumption | lra]).
  destruct (_ || _); [apply py_max_le; [exact Hx | apply Qle_refl] | exact Hx].
Qed.

Lemma score_empty_clean_ge tok f : (17 # 20 <= score (17 # 20) tok "" f)%Q.
Proof.
  unfold score. replace (Py.contains "" f) with true by (destruct f; reflexivity).
  rewrite orb_true_r. apply py_max_ge_r.
Qed.

Lemma fuzzy_loop_stays o c names m bs :
  (forall f, In f names -> (score (17 # 20) o c f <= bs)%Q) ->
  fuzzy_loop o c names (Some m) bs = Some m.
Proof.
  revert bs. induction names as [|f rest IH]; intros bs Hle; [reflexivity|]. simpl.
  assert (Hf : Qltb bs (score (17 # 20) o c f) = false).
  { destruct (Qltb bs _) eqn:E; [|reflexivity].
    apply Qltb_spec in E. exfalso. apply (Qlt_not_le _ _ E). apply Hle. left. reflexivity. }
  rewrite Hf. apply IH. intros g Hg. apply Hle. right. assumption.
Qed.

Lemma strip_prefix_token tok :
  In tok prefixes ->
  strip_prefix prefixes tok = "" /\ (tok <> "function" -> String.length tok <= 5).
Proof.
  simpl. intros H.
  repeat (destruct H as [<-|H];
          [split; [reflexivity | intros Hc; first [simpl; lia | exfalso; apply Hc; reflexivity]]|]).
  destruct H.
Qed.

Lemma Qltb_of_score tok f :
  Qltb 0 (score (17 # 20) tok "" f) && Qltb (3 # 5) (score (17 # 20) tok "" f) = true.
Proof.
  pose proof (score_empty_clean_ge tok f) as H.
  apply andb_true_intro. split; apply Qltb_spec;
    [apply Qlt_le_trans with (17 # 20) | apply Qlt_le_trans with (17 # 20)];
    (reflexivity || assumption).
Qed.

Definition cat_three : Catalog :=
  [("twosum", [("python", "def twoSum")]); ("threesum", [("python", "def threeSum")]);
   ("functions", [("python", "def functions")])].

Definition bot_three : Bot := mkBot cat_three (Some []) None 0 [].

Lemma fuzzy_loop_best o c names bm bs m :
  fuzzy_loop o c names bm bs = Some m ->
  (bm = Some m /\ forall k, In k names ->
      (score (17 # 20) o c k <= bs \/ score (17 # 20) o c k <= 3 # 5)%Q) \/
  (In m names /\ (3 # 5 < score (17 # 20) o c m)%Q /\ (bs < score (17 # 20) o c m)%Q
   /\ forall k, In k names -> (score (17 # 20) o c k <= score (17 # 20) o c m)%Q).
Proof.
  revert bm bs. induction names as [|f rest IH]; intros bm bs H; simpl in H.
  - left. split; [exact H | intros k []].
  - destruct (Qltb bs (score (17 # 20) o c f) && Qltb (3 # 5) (score (17 # 20) o c f)) eqn:Hs.
    + apply andb_true_iff in Hs as [H1 H2]. apply Qltb_spec in H1, H2.
      destruct (IH _ _ H) as [[Hm Hall] | [Hin [Hm1 [Hm2 Hall]]]].
      * injection Hm as <-. right. split; [left; reflexivity|]. split; [exact H2|].
        split; [exact H1|]. intros k [<-|Hk]; [apply Qle_refl|].
        destruct (Hall k Hk); [assumption | lra].
      * right. split; [right; exact Hin|]. split; [exact Hm1|]. split; [lra|].
        intros k [<-|Hk]; [lra | exact (Hall k Hk)].
    + assert (Hn : (score (17 # 20) o c f <= bs \/ score (17 # 20) o c f <= 3 # 5)%Q).
      { apply andb_false_iff in Hs as [Hs|Hs];
          [left | right]; apply Qnot_lt_le; intros Hl; apply Qltb_spec in Hl; congruence. }
      destruct (IH _ _ H) as [[Hm Hall] | [Hin [Hm1 [Hm2 Hall]]]].
      * left. split; [exact Hm|]. intros k [<-|Hk]; [exact Hn | exact (Hall k Hk)].
      * right. split; [right; exact Hin|]. split; [exact Hm1|]. split; [exact Hm2|].
        intros k [<-|Hk]; [lra | exact (Hall k Hk)].
Qed.

(** The score with an empty cleaned candidate is at most the larger of
    0.85 and the candidate's similarity. *)
Lemma score_empty_clean_cases tok f :
  (score (17 # 20) tok "" f <= 17 # 20 \/ score (17 # 20) tok "" f <= calculate_similarity tok f)%Q.
Proof.
  unfold score. replace (calculate_similarity "" f) with 0%Q by reflexivity.
  replace (Py.contains "" f) with true by (destruct f; reflexivity). rewrite orb_true_r.
  unfold py_max. destruct (Qltb (calculate_similarity tok f) 0).
  - replace (Qltb 0 (17 # 20)) with true by reflexivity. left. apply Qle_refl.
  - destruct (Qltb (calculate_similarity tok f) (17 # 20)); [left | right]; apply Qle_refl.
Qed.

Lemma py_max_ge_l a b : (a <= py_max a b)%Q.
Proof.
  unfold py_max. destruct (Qltb a b) eqn:H; [|apply Qle_refl].
  apply Qlt_le_weak. apply Qltb_spec. exact H.
Qed.

Lemma score_ge_similarity tok f : (calculate_similarity tok f <= score (17 # 20) tok "" f)%Q.
Proof.
  apply Qle_trans with (py_max (calculate_similarity tok f) (calculate_similarity "" f)).
  - apply py_max_ge_l.
  - unfold score. destruct (_ || _); [apply py_max_ge_l | apply Qle_refl].
Qed.

(** C10 (amended): when the lowercased candidate is a bare prefix token,
    is not a Catalog key and has no correction entry, and the Catalog is
    non-empty (with no empty key), the cleaned candidate is "", every
    identifier scores at least 0.85, and fuzzy matching always returns a
    Catalog identifier; for def, var, func, const and let it is the first
    identifier in iteration order. For "function" it is the first
    identifier when no later identifier is more than 0.85-similar to
    "function"; when some identifier is, the result is more than
    0.85-similar and has the highest similarity to "function". *)
Theorem prefix_token_candidate (bot : Bot) (name k : string) (rest : list string)
    (Htok : In (Py.lower name) prefixes)
    (Hkeys : Dict.keys (code_blocks bot) = k :: rest)
    (Hnokey : ~ In (Py.lower name) (Dict.keys (code_blocks bot)))
    (Hnoempty : ~ In "" (Dict.keys (code_blocks bot)))
    (Hcorr : match ocr_corrections bot with
             | Some m => Dict.get m (Py.lower name) | None => None end = None) :
  strip_prefix prefixes (Py.lower name) = ""
  /\ (forall f, In f (Dict.keys (code_blocks bot)) ->
        (17 # 20 <= score (17 # 20) (Py.lower name) "" f)%Q)
  /\ (Py.lower name <> "function" -> fuzzy_match_function_name bot name = Some k)
  /\ (exists m, fuzzy_match_function_name bot name = Some m
                /\ In m (Dict.keys (code_blocks bot)))
  /\ (Py.lower name = "function" ->
      ((forall f, In f rest -> (calculate_similarity "function" f <= 17 # 20)%Q) ->
       fuzzy_match_function_name bot name = Some k)
      /\ ((exists f, In f (Dict.keys (code_blocks bot))
                     /\ (17 # 20 < calculate_similarity "function" f)%Q) ->
          exists m, fuzzy_match_function_name bot name = Some m
                    /\ In m (Dict.keys (code_blocks bot))
                    /\ (17 # 20 < calculate_similarity "function" m)%Q
                    /\ forall g, In g (Dict.keys (code_blocks bot)) ->
                         (calculate_similarity "function" g
                          <= calculate_similarity "function" m)%Q)).
Proof.
  destruct (strip_prefix_token _ Htok) as [Hstrip Hshort].
  assert (Htr : Py.truthy name = true).
  { destruct name as [|ch nm]; [|reflexivity].
    simpl in Htok. exfalso. intuition discriminate. }
  assert (Hfz : fuzzy_match_function_name bot name =
                match fuzzy_loop (Py.lower name) "" rest (Some k)
                        (score (17 # 20) (Py.lower name) "" k) with
                | Some m => if Py.truthy m then Some m else None
                | None => None end).
  { unfold fuzzy_match_function_name. rewrite Htr. cbv beta iota zeta.
    rewrite Hcorr, Hstrip, Hkeys. simpl fuzzy_loop at 1. rewrite Qltb_of_score. reflexivity. }
  assert (Htruthy : forall m, In m (Dict.keys (code_blocks bot)) -> Py.truthy m = true).
  { intros m Hm. destruct m; [contradiction|reflexivity]. }
  assert (Hk : Py.truthy k = true) by (apply Htruthy; rewrite Hkeys; left; reflexivity).
  (* the first identifier stays when no later one scores above 0.85 *)
  assert (Hstay : (forall f, In f rest ->
                    (calculate_similarity (Py.lower name) f <= 17 # 20)%Q) ->
                  fuzzy_match_function_name bot name = Some k).
  { intros Hle. rewrite Hfz, fuzzy_loop_stays; [rewrite Hk; reflexivity|].
    intros f Hf. apply Qle_trans with (17 # 20); [|apply score_empty_clean_ge].
    apply score_empty_clean_le. apply Hle. exact Hf. }
  destruct (fuzzy_loop_keeps (Py.lower name) "" rest k (score (17 # 20) (Py.lower name) "" k))
    as [m [Hm Hin]].
  assert (HmK : In m (Dict.keys (code_blocks bot))).
  { rewrite Hkeys. destruct Hin as [->|Hin]; [left; reflexivity | right; assumption]. }
  assert (Hres : fuzzy_match_function_name bot name = Some m)
    by (rewrite Hfz, Hm, (Htruthy m HmK); reflexivity).
  (* the result has the highest score among all identifiers *)
  assert (Hmax : forall g, In g (Dict.keys (code_blocks bot)) ->
            (score (17 # 20) (Py.lower name) "" g <= score (17 # 20) (Py.lower name) "" m)%Q).
  { intros g Hg. rewrite Hkeys in Hg.
    destruct (fuzzy_loop_best _ _ _ _ _ _ Hm) as [[Hbm Hall] | [_ [_ [Hlt Hall]]]].
    - injection Hbm as <-. destruct Hg as [<-|Hg]; [apply Qle_refl|].
      destruct (Hall g Hg) as [H|H]; [exact H|].
      apply Qle_trans with (3 # 5); [exact H|].
      apply Qle_trans with (17 # 20); [discriminate | apply score_empty_clean_ge].
    - destruct Hg as [<-|Hg]; [apply Qlt_le_weak; exact Hlt | exact (Hall g Hg)]. }
  split; [exact Hstrip|]. split; [intros f _; apply score_empty_clean_ge|]. split.
  - intros Hnf. apply Hstay. intros f Hf. apply similarity_short_le; [exact (Hshort Hnf)|].
    intros ->. apply Hnokey. rewrite Hkeys. right. assumption.
  - split; [exists m; split; [exact Hres | exact HmK]|].
    intros Hfun. rewrite Hfun in Hstay, Hmax. split; [exact Hstay|].
    intros [f [Hf Hsf]]. exists m. split; [exact Hres|]. split; [exact HmK|].
    assert (Hsm : (17 # 20 < score (17 # 20) "function" "" m)%Q).
    { apply Qlt_le_trans with (calculate_similarity "function" f); [exact Hsf|].
      apply Qle_trans with (score (17 # 20) "function" "" f);
        [apply score_ge_similarity | exact (Hmax f Hf)]. }
    assert (Hsim : (score (17 # 20) "function" "" m <= calculate_similarity "function" m)%Q).
    { destruct (score_empty_clean_cases "function" m) as [H|H]; [|exact H].
      exfalso. apply (Qlt_not_le _ _ Hsm). exact H. }
    split; [apply Qlt_le_trans with (score (17 # 20) "function" "" m); assumption|].
    intros g Hg. apply Qle_trans with (score (17 # 20) "function" "" g); [apply score_ge_similarity|].
    apply Qle_trans with (score (17 # 20) "function" "" m); [exact (Hmax g Hg) | exact Hsim].
Qed.

Lemma prefix_token_candidate_witness :
  fuzzy_match_function_name bot_three "Def" = Some "twosum"
  /\ fuzzy_match_function_name bot_three "Function" = Some "functions".
Proof.
  split.
  - destruct (prefix_token_candidate bot_three "Def" "twosum" ["threesum"; "functions"]
                ltac:(simpl; tauto) eq_refl
                ltac:(simpl; intuition discriminate) ltac:(simpl; intuition discriminate)
                eq_refl) as [_ [_ [H _]]].
    apply H. discriminate.
  - destruct (prefix_token_candidate bot_three "Function" "twosum" ["threesum"; "functions"]
                ltac:(simpl; tauto) eq_refl
                ltac:(simpl; intuition discriminate) ltac:(simpl; intuition discriminate)
                eq_refl) as [_ [_ [_ [_ H]]]].
    assert (Hex : exists f, In f (Dict.keys (code_blocks bot_three))
                            /\ (17 # 20 < calculate_similarity "function" f)%Q).
    { exists "functions". split; [right; right; left; reflexivity | vm_compute; reflexivity]. }
    destruct (proj2 (H eq_refl) Hex) as [m [Hm [Hin [Hs Hall]]]].
    simpl in Hin. destruct Hin as [<-|[<-|[<-|[]]]];
      [vm_compute in Hs; discriminate Hs | vm_compute in Hs; discriminate Hs | reflexivity].
Defined.

Definition cat_functions : Catalog :=
  [("twosum", [("python", "def twoSum")]); ("functions", [("python", "def functions")])].

(** C10 fails as stated: for "function" the later identifier "functions"
    (similarity 8/9 > 0.85) is chosen over the first identifier "twosum". *)
Lemma prefix_token_counterexample :
  strip_prefix prefixes "function" = ""
  /\ Dict.keys cat_functions = ["twosum"; "functions"]
  /\ fuzzy_match_function_name (mkBot cat_functions (Some []) None 0 []) "function"
     = Some "functions".
Proof. split; [reflexivity|]. split; [reflexivity|]. vm_compute. reflexivity. Qed.

(* ================================================================== *)
(** * Further properties of the code *)

(** ** Keystroke replay *)

Module TypeFacts.

Lemma append_assoc_str (a b c : string) : (a ++ b) ++ c = a ++ (b ++ c).
Proof. induction a; simpl; congruence. Qed.

Lemma append_nil_str (a : string) : a ++ "" = a.
Proof. induction a; simpl; congruence. Qed.

Lemma typed_string_app ks1 ks2 :
  typed_string (ks1 ++ ks2) = typed_string ks1 ++ typed_string ks2.
Proof. induction ks1; simpl; congruence. Qed.

Lemma upper_lower_char c : Py2.isupper c = true -> Py2.upper_char (Py.lower_char c) = c.
Proof.
  intros H. destruct c as [[] [] [] [] [] [] [] []];
    vm_compute in H |- *; first [reflexivity | discriminate].
Qed.

Lemma type_chars_typed s : typed_string (type_chars s) = s.
Proof.
  induction s as [|c s IH]; [reflexivity|]. simpl. rewrite IH. f_equal.
  destruct (Py2.isupper c) eqn:Hu; [apply upper_lower_char; assumption|].
  destruct (Ascii.eqb_spec c " "); [subst; reflexivity | reflexivity].
Qed.

Lemma type_lines_typed lines :
  typed_string (type_lines lines) = String.concat (String Py2.nl "") (map Py2.lstrip lines).
Proof.
  induction lines as [|l rest IH]; [reflexivity|]. simpl type_lines.
  assert (Hl : typed_string (if negb (Py.truthy (Py2.lstrip l))
                             then (match rest with [] => [] | _ :: _ => [Enter] end) ++ type_lines rest
                             else type_chars (Py2.lstrip l) ++
                                  (match rest with [] => [] | _ :: _ => [Enter] end) ++ type_lines rest)
               = Py2.lstrip l ++ typed_string ((match rest with [] => [] | _ :: _ => [Enter] end)
                                               ++ type_lines rest)).
  { destruct (Py2.lstrip l) eqn:E; [reflexivity|].
    simpl negb. cbv iota. rewrite typed_string_app, <- E, type_chars_typed. reflexivity. }
  rewrite Hl. destruct rest as [|r rs].
  - simpl. apply append_nil_str.
  - change (String.concat (String Py2.nl "") (map Py2.lstrip (l :: r :: rs)))
      with (Py2.lstrip l ++ (String Py2.nl "" ++
            String.concat (String Py2.nl "") (map Py2.lstrip (r :: rs)))).
    rewrite <- IH. reflexivity.
Qed.

Lemma count_enter_chars s : count_occ Key_eq_dec (type_chars s) Enter = 0.
Proof.
  induction s as [|c s IH]; [reflexivity|]. simpl.
  destruct (Py2.isupper c); [|destruct (Ascii.eqb c " ")];
    (destruct Key_eq_dec; [discriminate|exact IH]).
Qed.

End TypeFacts.

Lemma split_on_length sep s : length (Py2.split_on sep s) = S (Py2.count_char sep s).
Proof.
  induction s as [|c s IH]; [reflexivity|]. simpl.
  destruct (Py2.split_on sep s) as [|l ls]; [discriminate|].
  simpl in IH. destruct (Ascii.eqb c sep); simpl; lia.
Qed.

Lemma count_enter_lines lines :
  count_occ Key_eq_dec (type_lines lines) Enter = length lines - 1.
Proof.
  induction lines as [|l rest IH]; [reflexivity|]. simpl type_lines.
  destruct rest as [|r rs];
    destruct (Py.truthy (Py2.lstrip l)); simpl negb; cbv iota;
    rewrite ?count_occ_app, ?TypeFacts.count_enter_chars, IH; simpl; lia.
Qed.

(** X1: [type_text] puts into the editor exactly the text with each line's
    leading whitespace removed (lines joined by newlines): every uppercase
    character comes out right through Shift plus its lowercase key. *)
Theorem type_text_types_lstripped_lines (text : string) :
  typed_string (type_text text)
  = String.concat (String Py2.nl "") (map Py2.lstrip (Py2.split_on Py2.nl text)).
Proof. apply TypeFacts.type_lines_typed. Qed.

(** X2: [type_text] presses Enter exactly once per newline character of the
    text, whatever the lines contain (blank lines included). *)
Theorem type_text_enter_count (text : string) :
  count_occ Key_eq_dec (type_text text) Enter = Py2.count_char Py2.nl text.
Proof.
  unfold type_text. rewrite count_enter_lines, split_on_length. lia.
Qed.

(** ** Lookup *)

Module LookupFacts.

Lemma lower_char_idem c : Py.lower_char (Py.lower_char c) = Py.lower_char c.
Proof. destruct c as [[] [] [] [] [] [] [] []]; vm_compute; reflexivity. Qed.

Lemma lower_idem s : Py.lower (Py.lower s) = Py.lower s.
Proof. induction s as [|c s IH]; simpl; [reflexivity|]. rewrite lower_char_idem, IH. reflexivity. Qed.

Lemma truthy_lower s : Py.truthy (Py.lower s) = Py.truthy s.
Proof. destruct s; reflexivity. Qed.

Lemma fuzzy_lower bot s :
  fuzzy_match_function_name bot (Py.lower s) = fuzzy_match_function_name bot s.
Proof. unfold fuzzy_match_function_name. rewrite truthy_lower, lower_idem. reflexivity. Qed.

End LookupFacts.

Ltac split_exc H :=
  repeat match type of H with
  | context [match ?x with Some _ => _ | None => _ end] => destruct x eqn:?
  | context [match ?x with Ok _ => _ | Raise _ => _ end] => destruct x eqn:?
  | context [if ?b then _ else _] => destruct b eqn:?
  end.

Ltac split_exc_goal :=
  repeat match goal with
  | |- context [match ?x with Some _ => _ | None => _ end] => destruct x eqn:?
  | |- context [match ?x with Ok _ => _ | Raise _ => _ end] => destruct x eqn:?
  | |- context [if ?b then _ else _] => destruct b eqn:?
  end.

(** X3: [get_code_from_database] leaves the bot state as it was, except that
    it records an unknown function (through
    [save_unknown_function_screenshot]) when it returns [None] for a non-empty
    name. *)
Theorem get_code_state_change env bot name hint r bot' :
  get_code_from_database env bot name hint = Ok (r, bot') ->
  bot' = bot \/
  (r = None /\ Py.truthy name = true
   /\ bot' = save_unknown_function_screenshot env bot name).
Proof.
  intros H. unfold get_code_from_database, bind in H. split_exc H;
    try discriminate; injection H as <- <-; auto.
  right. repeat split. apply negb_false_iff. assumption.
Qed.

(** X4: [get_code_from_database] is case-insensitive: it returns the same
    code (or raises the same error) for a name and for its lowercase form. *)
Theorem get_code_case_insensitive env bot name hint :
  code_of (get_code_from_database env bot name hint)
  = code_of (get_code_from_database env bot (Py.lower name) hint).
Proof.
  unfold get_code_from_database, bind.
  rewrite LookupFacts.truthy_lower, LookupFacts.lower_idem, LookupFacts.fuzzy_lower.
  split_exc_goal; reflexivity.
Qed.

Lemma get_code_state_change_witness :
  get_code_from_database env0 bot_js "zzzzzzzzzz" None
    = Ok (None, save_unknown_function_screenshot env0 bot_js "zzzzzzzzzz")
  /\ (save_unknown_function_screenshot env0 bot_js "zzzzzzzzzz" = bot_js \/
      (@None string = None /\ Py.truthy "zzzzzzzzzz" = true
       /\ save_unknown_function_screenshot env0 bot_js "zzzzzzzzzz"
          = save_unknown_function_screenshot env0 bot_js "zzzzzzzzzz")).
Proof.
  assert (H : get_code_from_database env0 bot_js "zzzzzzzzzz" None
              = Ok (None, save_unknown_function_screenshot env0 bot_js "zzzzzzzzzz"))
    by (vm_compute; reflexivity).
  split; [exact H|]. exact (get_code_state_change _ _ _ _ _ _ H).
Defined.

(** ** Fuzzy matching *)

(** X5: a name returned by [fuzzy_match_function_name] is either the stored
    correction of the lowercased OCR name, or a catalog key whose score is
    above 0.6 and at least the score of every other catalog key. *)
Theorem fuzzy_match_result bot ocr_name m :
  fuzzy_match_function_name bot ocr_name = Some m ->
  (exists corr, ocr_corrections bot = Some corr /\ Dict.get corr (Py.lower ocr_name) = Some m) \/
  (In m (Dict.keys (code_blocks bot))
   /\ (3 # 5 < score (17 # 20) (Py.lower ocr_name)
                  (strip_prefix prefixes (Py.lower ocr_name)) m)%Q
   /\ forall k, In k (Dict.keys (code_blocks bot)) ->
        (score (17 # 20) (Py.lower ocr_name) (strip_prefix prefixes (Py.lower ocr_name)) k
         <= score (17 # 20) (Py.lower ocr_name) (strip_prefix prefixes (Py.lower ocr_name)) m)%Q).
Proof.
  unfold fuzzy_match_function_name. intros H.
  destruct (negb (Py.truthy ocr_name)); [discriminate|].
  destruct (ocr_corrections bot) as [corr|] eqn:Ec.
  - destruct (Dict.get corr (Py.lower ocr_name)) as [c|] eqn:Eg.
    + left. injection H as <-. eauto.
    + right. destruct (fuzzy_loop _ _ _ None 0) as [m'|] eqn:Ef; [|discriminate].
      destruct (Py.truthy m'); [injection H as <-|discriminate].
      destruct (fuzzy_loop_best _ _ _ _ _ _ Ef) as [[Hn _] | [Hin [H1 [_ Hall]]]];
        [discriminate | auto].
  - right. destruct (fuzzy_loop _ _ _ None 0) as [m'|] eqn:Ef; [|discriminate].
    destruct (Py.truthy m'); [injection H as <-|discriminate].
    destruct (fuzzy_loop_best _ _ _ _ _ _ Ef) as [[Hn _] | [Hin [H1 [_ Hall]]]];
      [discriminate | auto].
Qed.

Lemma fuzzy_match_result_witness :
  fuzzy_match_function_name bot_js "TwoSun" = Some "twosum"
  /\ In "twosum" (Dict.keys (code_blocks bot_js)).
Proof.
  assert (H : fuzzy_match_function_name bot_js "TwoSun" = Some "twosum")
    by (vm_compute; reflexivity).
  split; [exact H|].
  destruct (fuzzy_match_result _ _ _ H) as [[corr [Hc Hg]] | [Hin _]].
  - injection Hc as <-. discriminate Hg.
  - exact Hin.
Defined.

(** ** The catalog *)

Module CatalogFacts.

Lemma get_in {V} (m : Dict.t V) k v : Dict.get m k = Some v -> In (k, v) m.
Proof.
  induction m as [|[k' v'] m IH]; simpl; [discriminate|].
  destruct (String.eqb_spec k k') as [->|_]; [intros H; injection H as <-; auto|auto].
Qed.

Lemma in_set {V} (m : Dict.t V) k v x y :
  In (x, y) (Dict.set m k v) -> (x, y) = (k, v) \/ In (x, y) m.
Proof.
  induction m as [|[k' v'] m IH]; simpl; [intros [H|[]]; auto|].
  destruct (String.eqb k k'); simpl; intros [H|H]; auto.
  destruct (IH H); auto.
Qed.

Lemma in_set_nodup {V} (m : Dict.t V) k v x y :
  NoDup (Dict.keys m) ->
  In (x, y) (Dict.set m k v) -> (x, y) = (k, v) \/ (x <> k /\ In (x, y) m).
Proof.
  induction m as [|[k' v'] m IH]; simpl; intros Hnd; [intros [H|[]]; auto|].
  inversion Hnd as [|? ? Hnin Hnd']; subst.
  destruct (String.eqb_spec k k') as [->|Hne]; simpl; intros [H|H].
  - left. congruence.
  - right. split; [|auto]. intros Hx. rewrite Hx in H. apply Hnin.
    change k' with (fst (k', y)). apply in_map. exact H.
  - injection H as <- <-. right. split; [congruence | left; reflexivity].
  - destruct (IH Hnd' H) as [H'|[H1 H2]]; auto.
Qed.

Lemma set_not_nil {V} (m : Dict.t V) k v : Dict.set m k v <> [].
Proof. destruct m as [|[k' v'] m]; simpl; [|destruct (String.eqb k k')]; discriminate. Qed.

Lemma get_set_other {V} (m : Dict.t V) k v k' :
  k' <> k -> Dict.get (Dict.set m k v) k' = Dict.get m k'.
Proof.
  intros Hne. induction m as [|[k0 v0] m IH]; simpl.
  - apply String.eqb_neq in Hne. rewrite Hne. reflexivity.
  - destruct (String.eqb_spec k k0) as [->|Hne0]; simpl.
    + apply String.eqb_neq in Hne. rewrite Hne. reflexivity.
    + rewrite IH. reflexivity.
Qed.

Lemma build_lookup_ok lookup blocks cat :
  catalog_ok lookup -> build_lookup lookup blocks = Ok cat -> catalog_ok cat.
Proof.
  revert lookup. induction blocks as [|b rest IH]; intros lookup Hok H; simpl in H.
  - injection H as <-. exact Hok.
  - unfold bind in H. destruct (req (rb_title b)) as [t|]; [|discriminate].
    destruct (req (rb_blocks b)) as [bs|]; [|discriminate].
    refine (IH _ _ H). destruct Hok as [Hnd Hall].
    set (title := Py.lower t).
    set (lk1 := if Dict.mem lookup title then lookup else Dict.set lookup title []).
    assert (Hinner : NoDup (Dict.keys (match Dict.get lk1 title with Some v => v | None => [] end))).
    { subst lk1. unfold Dict.mem. destruct (Dict.get lookup title) as [v|] eqn:Eg.
      - rewrite Eg. apply get_in in Eg. apply (Hall _ _ Eg).
      - rewrite DictFacts.get_set. constructor. }
    assert (Hnd1 : NoDup (Dict.keys lk1)).
    { subst lk1. destruct (Dict.mem lookup title); [|apply DictFacts.nodup_set]; exact Hnd. }
    split; [apply DictFacts.nodup_set; exact Hnd1|].
    intros k v Hin. apply (in_set_nodup _ _ _ _ _ Hnd1) in Hin as [Heq|Hin].
    + injection Heq as -> ->. split; [apply LookupFacts.lower_idem|].
      split; [apply set_not_nil | apply DictFacts.nodup_set; exact Hinner].
    + destruct Hin as [Hne Hin]. subst lk1.
      destruct (Dict.mem lookup title); [exact (Hall _ _ Hin)|].
      apply in_set in Hin as [Heq|Hin]; [injection Heq as -> ->; congruence|].
      exact (Hall _ _ Hin).
Qed.

Lemma load_code_blocks_ok cb corr : catalog_ok (fst (load_code_blocks cb corr)).
Proof.
  unfold load_code_blocks, bind.
  assert (H0 : catalog_ok []) by (split; [constructor | intros k v []]).
  destruct (read cb) as [blocks|]; [|exact H0].
  destruct (build_lookup [] blocks) as [cat|] eqn:Eb; [|exact H0].
  destruct corr as [| |d]; simpl; try exact H0;
    exact (build_lookup_ok _ _ _ H0 Eb).
Qed.

End CatalogFacts.

(** X6: whatever [CodeBlocks.json] and [ocr_corrections.json] contain,
    [load_code_blocks] returns a catalog with distinct titles, all in
    lowercase, each mapped to a non-empty dict of distinct languages. *)
Theorem load_code_blocks_catalog_ok cb corr :
  catalog_ok (fst (load_code_blocks cb corr)).
Proof. apply CatalogFacts.load_code_blocks_ok. Qed.

Lemma substring_match_in n cat v :
  substring_match n cat = Some v -> exists k, In (k, v) cat.
Proof.
  induction cat as [|[k v'] cat IH]; simpl; [discriminate|].
  destruct (_ || _); [intros H; injection H as <-; eauto|].
  intros H. destruct (IH H) as [k' Hk]. eauto.
Qed.

Lemma first_variant_ok v : v <> [] -> exists c, first_variant v = Ok c.
Proof. destruct v as [|[l c] v]; [congruence | intros _; exists c; reflexivity]. Qed.

Lemma get_code_no_raise env bot name hint e :
  catalog_ok (code_blocks bot) -> get_code_from_database env bot name hint <> Raise e.
Proof.
  intros [_ Hall]. unfold get_code_from_database, bind.
  assert (Hfv : forall k v, In (k, v) (code_blocks bot) ->
                 match first_variant v with Ok a => Ok (Some a, bot) | Raise e => Raise e end
                 <> Raise e).
  { intros k v Hin. destruct (Hall _ _ Hin) as [_ [Hne _]].
    destruct (first_variant_ok _ Hne) as [c ->]. discriminate. }
  destruct (negb (Py.truthy name)); [discriminate|].
  destruct (Dict.get (code_blocks bot) (Py.lower name)) as [v|] eqn:Eg.
  - apply CatalogFacts.get_in in Eg.
    destruct (lang_in _ v); [discriminate|]. destruct (lang_in hint v); [discriminate|].
    destruct (Dict.mem v _); [discriminate|]. exact (Hfv _ _ Eg).
  - destruct (match fuzzy_match_function_name bot name with
              | Some c => if Py.truthy c then Dict.get (code_blocks bot) c else None
              | None => None end) as [v|] eqn:Ef.
    + destruct (fuzzy_match_function_name bot name) as [c|]; [|discriminate].
      destruct (Py.truthy c); [|discriminate]. apply CatalogFacts.get_in in Ef.
      destruct (lang_in _ v); [discriminate|]. exact (Hfv _ _ Ef).
    + destruct (substring_match _ _) as [v|] eqn:Es; [|discriminate].
      destruct (substring_match_in _ _ _ Es) as [k Hk]. exact (Hfv _ _ Hk).
Qed.

(** X7: with a catalog loaded by [load_code_blocks], [get_code_from_database]
    never raises: the [list(variants.keys())[0]] fallbacks always find a
    variant. *)
Theorem get_code_never_raises cb corr env bot name hint e :
  code_blocks bot = fst (load_code_blocks cb corr) ->
  get_code_from_database env bot name hint <> Raise e.
Proof.
  intros H. apply get_code_no_raise. rewrite H. apply CatalogFacts.load_code_blocks_ok.
Qed.

Lemma get_code_never_raises_witness :
  code_blocks (mkBot (fst (load_code_blocks
                            (Parsed [mkRawBlock (Some "TwoSum") (Some "python") (Some ["def twoSum"])])
                            Missing)) (Some []) None 0 [])
    = fst (load_code_blocks
             (Parsed [mkRawBlock (Some "TwoSum") (Some "python") (Some ["def twoSum"])]) Missing)
  /\ get_code_from_database env0
       (mkBot (fst (load_code_blocks
                      (Parsed [mkRawBlock (Some "TwoSum") (Some "python") (Some ["def twoSum"])])
                      Missing)) (Some []) None 0 [])
       "twosum" None <> Raise IndexError.
Proof.
  split; [reflexivity|].
  exact (get_code_never_raises
           (Parsed [mkRawBlock (Some "TwoSum") (Some "python") (Some ["def twoSum"])]) Missing
           env0 (mkBot (fst (load_code_blocks
                      (Parsed [mkRawBlock (Some "TwoSum") (Some "python") (Some ["def twoSum"])])
                      Missing)) (Some []) None 0 []) "twosum" None IndexError eq_refl).
Defined.

(** ** Similarity *)

(** X8: [calculate_similarity] reaches exactly 1.0 only for two equal,
    non-empty strings. *)
Theorem similarity_one_iff a b :
  (calculate_similarity a b == 1)%Q <-> a = b /\ a <> "".
Proof.
  unfold calculate_similarity. split.
  - destruct (Py.truthy a) eqn:Ha; [|simpl; intros H; discriminate H].
    destruct (Py.truthy b) eqn:Hb; [|simpl; intros H; discriminate H]. simpl.
    intros H. destruct (string_dec a b) as [->|Hne].
    + split; [reflexivity | destruct b; discriminate].
    + exfalso. pose proof (lev_pos a b Hne) as Hd.
      assert (Hm : 0 < Nat.max (String.length a) (String.length b))
        by (destruct a; [discriminate | cbn [String.length]; lia]).
      set (d := levenshtein_distance a b) in *.
      set (m := Nat.max (String.length a) (String.length b)) in *.
      assert (Hm' : (0 < inject_Z (Z.of_nat m))%Q)
        by (change 0%Q with (inject_Z 0); rewrite <- Zlt_Qlt; lia).
      assert (Hd' : (0 < inject_Z (Z.of_nat d))%Q)
        by (change 0%Q with (inject_Z 0); rewrite <- Zlt_Qlt; lia).
      assert (Hq : (0 < inject_Z (Z.of_nat d) / inject_Z (Z.of_nat m))%Q).
      { apply Qlt_shift_div_l; [exact Hm'|]. rewrite Qmult_0_l. exact Hd'. }
      remember (inject_Z (Z.of_nat d) / inject_Z (Z.of_nat m))%Q as q. lra.
  - intros [<- Hne]. destruct a as [|c a]; [congruence|]. simpl negb. cbv iota.
    rewrite levenshtein_refl.
    assert (Hz : forall y, (1 - inject_Z (Z.of_nat 0) / y == 1)%Q)
      by (intros y; unfold Qdiv; change (inject_Z (Z.of_nat 0)) with 0%Q;
          rewrite Qmult_0_l; ring).
    exact (Hz _).
Qed.

(** ** Suggestions *)

Module SortFacts.

Definition desc (x y : string * Q) : Prop := (snd y <= snd x)%Q.

Lemma insert_desc_perm m l : Permutation (insert_desc m l) (m :: l).
Proof.
  induction l as [|m' l IH]; simpl; [reflexivity|].
  destruct (Qltb (snd m') (snd m)); [reflexivity|].
  rewrite IH. apply perm_swap.
Qed.

Lemma insert_desc_hd a m l :
  HdRel desc a l -> desc a m -> HdRel desc a (insert_desc m l).
Proof.
  intros Hh Ha. destruct l as [|m' l]; simpl; [constructor; exact Ha|].
  destruct (Qltb (snd m') (snd m)); constructor; [exact Ha|].
  inversion Hh; assumption.
Qed.

Lemma insert_desc_sorted m l : Sorted desc l -> Sorted desc (insert_desc m l).
Proof.
  induction l as [|m' l IH]; intros Hs; simpl; [constructor; constructor|].
  destruct (Qltb (snd m') (snd m)) eqn:E.
  - constructor; [exact Hs|]. constructor. unfold desc.
    apply Qlt_le_weak. apply Qltb_spec. exact E.
  - inversion Hs as [|? ? Hs' Hh]; subst. constructor; [apply IH; exact Hs'|].
    apply insert_desc_hd; [exact Hh|]. unfold desc.
    apply Qnot_lt_le. intros Hl. apply Qltb_spec in Hl. congruence.
Qed.

Lemma fold_insert_perm l acc :
  Permutation (fold_left (fun acc m => insert_desc m acc) l acc) (l ++ acc).
Proof.
  revert acc. induction l as [|x l IH]; intros acc; simpl; [reflexivity|].
  rewrite IH, insert_desc_perm. apply Permutation_sym, Permutation_middle.
Qed.

Lemma fold_insert_sorted l acc :
  Sorted desc acc -> Sorted desc (fold_left (fun acc m => insert_desc m acc) l acc).
Proof.
  revert acc. induction l as [|x l IH]; intros acc Hs; simpl; [exact Hs|].
  apply IH, insert_desc_sorted, Hs.
Qed.

Lemma sort_desc_perm l : Permutation (sort_desc l) l.
Proof. unfold sort_desc. rewrite fold_insert_perm, app_nil_r. reflexivity. Qed.

Lemma sort_desc_sorted l : Sorted desc (sort_desc l).
Proof. apply fold_insert_sorted. constructor. Qed.

Lemma review_matches_in available ocr_name f s :
  In (f, s) (review_matches available ocr_name) <->
  In f available /\ s = score (4 # 5) ocr_name (strip_prefix prefixes ocr_name) f
  /\ (1 # 2 < s)%Q.
Proof.
  unfold review_matches. split.
  - intros H. apply (Permutation_in _ (sort_desc_perm _)) in H.
    apply in_flat_map in H as [g [Hg Hin]].
    destruct (Qltb (1 # 2) _) eqn:E; [|destruct Hin].
    destruct Hin as [Heq|[]]. injection Heq as <- <-.
    split; [exact Hg|]. split; [reflexivity|]. apply Qltb_spec. exact E.
  - intros [Hf [-> Hs]]. apply (Permutation_in _ (Permutation_sym (sort_desc_perm _))).
    apply in_flat_map. exists f. split; [exact Hf|].
    apply Qltb_spec in Hs. rewrite Hs. left. reflexivity.
Qed.

Lemma sorted_head_max a l x : Sorted desc (a :: l) -> In x (a :: l) -> (snd x <= snd a)%Q.
Proof.
  intros Hs Hx. apply Sorted_StronglySorted in Hs.
  - inversion Hs as [|? ? _ Hall]; subst. destruct Hx as [<-|Hx]; [apply Qle_refl|].
    rewrite Forall_forall in Hall. exact (Hall x Hx).
  - intros p q r H1 H2. unfold desc in *. eapply Qle_trans; eassumption.
Qed.

End SortFacts.

(** X9: the [matches] list of [suggest_corrections] is sorted by score,
    highest first, and holds exactly the available functions whose score is
    above 0.5, each with that score. *)
Theorem review_matches_sorted_filtered available ocr_name :
  Sorted (fun x y => (snd y <= snd x)%Q) (review_matches available ocr_name) /\
  forall f s, In (f, s) (review_matches available ocr_name) <->
    In f available /\ s = score (4 # 5) ocr_name (strip_prefix prefixes ocr_name) f
    /\ (1 # 2 < s)%Q.
Proof.
  split; [apply SortFacts.sort_desc_sorted | apply SortFacts.review_matches_in].
Qed.

(** X10: the suggested correction [matches[0][0]] is an available function
    whose score is at least that of every available function. *)
Theorem review_best_match available ocr_name f s rest :
  review_matches available ocr_name = (f, s) :: rest ->
  In f available /\
  forall g, In g available ->
    (score (4 # 5) ocr_name (strip_prefix prefixes ocr_name) g <= s)%Q.
Proof.
  intros H.
  assert (Hf : In (f, s) (review_matches available ocr_name)) by (rewrite H; left; reflexivity).
  apply SortFacts.review_matches_in in Hf as [Hf [_ Hs]].
  split; [exact Hf|]. intros g Hg.
  destruct (Qlt_le_dec (1 # 2) (score (4 # 5) ocr_name (strip_prefix prefixes ocr_name) g))
    as [Hlt|Hle]; [|lra].
  assert (Hin : In (g, score (4 # 5) ocr_name (strip_prefix prefixes ocr_name) g)
                   (review_matches available ocr_name))
    by (apply SortFacts.review_matches_in; auto).
  rewrite H in Hin. pose proof (SortFacts.sort_desc_sorted
    (flat_map (fun func =>
      if Qltb (1 # 2) (score (4 # 5) ocr_name (strip_prefix prefixes ocr_name) func)
      then [(func, score (4 # 5) ocr_name (strip_prefix prefixes ocr_name) func)] else [])
      available)) as Hs'.
  change (Sorted SortFacts.desc (review_matches available ocr_name)) in Hs'.
  rewrite H in Hs'. exact (SortFacts.sorted_head_max _ _ _ Hs' Hin).
Qed.

Lemma review_best_match_witness :
  review_matches ["twosum"; "threesum"] "twosun"
    = [("twosum", score (4 # 5) "twosun" (strip_prefix prefixes "twosun") "twosum")]
  /\ In "twosum" ["twosum"; "threesum"].
Proof.
  assert (H : review_matches ["twosum"; "threesum"] "twosun"
              = [("twosum", score (4 # 5) "twosun" (strip_prefix prefixes "twosun") "twosum")])
    by (vm_compute; reflexivity).
  split; [exact H|].
  exact (proj1 (review_best_match _ _ _ _ _ H)).
Defined.

(** ** Sorted listings *)

Module SortedBy.

Section Sorting.

Context {A : Type} (le : A -> A -> bool).
Hypothesis le_total : forall a b, le a b = false -> le b a = true.

Definition R (a b : A) : Prop := le a b = true.

Lemma insert_by_perm x l : Permutation (insert_by le x l) (x :: l).
Proof.
  induction l as [|y l IH]; simpl; [reflexivity|].
  destruct (le x y); [reflexivity|]. rewrite IH. apply perm_swap.
Qed.

Lemma insert_by_sorted x l : Sorted R l -> Sorted R (insert_by le x l).
Proof.
  induction l as [|y l IH]; intros Hs; simpl; [constructor; constructor|].
  destruct (le x y) eqn:E.
  - constructor; [exact Hs | constructor; exact E].
  - inversion Hs as [|? ? Hs' Hh]; subst. constructor; [apply IH; exact Hs'|].
    destruct l as [|z l]; simpl; [constructor; apply le_total; exact E|].
    destruct (le x z); constructor; [apply le_total; exact E|].
    inversion Hh; assumption.
Qed.

Lemma sorted_by_perm l : Permutation (sorted_by le l) l.
Proof.
  induction l as [|x l IH]; simpl; [reflexivity|].
  rewrite insert_by_perm, IH. reflexivity.
Qed.

Lemma sorted_by_sorted l : Sorted R (sorted_by le l).
Proof. induction l as [|x l IH]; simpl; [constructor | apply insert_by_sorted, IH]. Qed.

End Sorting.

Lemma string_leb_total a b : String.leb a b = false -> String.leb b a = true.
Proof. intros H. destruct (String.leb_total a b); congruence. Qed.

Lemma pair_leb_total a b : pair_leb a b = false -> pair_leb b a = true.
Proof.
  unfold pair_leb. rewrite (String.compare_antisym (fst b) (fst a)).
  destruct (String.compare (fst a) (fst b)); simpl; try discriminate; auto.
  apply string_leb_total.
Qed.

End SortedBy.

Module AvailableFacts.

Lemma map_exc_titles blocks titles :
  map_exc (fun b => t <- req (rb_title b) ;; Ok (Py.lower t)) blocks = Ok titles ->
  forall k, In k titles <->
    exists b t, In b blocks /\ rb_title b = Some t /\ Py.lower t = k.
Proof.
  revert titles. induction blocks as [|b blocks IH]; intros titles H k; simpl in H.
  - injection H as <-. split; [intros [] | intros [b [t [[] _]]]].
  - unfold bind at 1 in H. destruct (rb_title b) as [t|] eqn:Et; simpl in H; [|discriminate].
    unfold bind in H.
    destruct (map_exc _ blocks) as [ys|] eqn:Ey; [|discriminate].
    injection H as <-. specialize (IH ys eq_refl k). simpl. rewrite IH. split.
    + intros [<-|[b' [t' [H1 H2]]]]; [exists b, t; auto | exists b', t'; tauto].
    + intros [b' [t' [[<-|H1] [H2 H3]]]].
      * left. congruence.
      * right. exists b', t'. auto.
Qed.

Lemma build_lookup_keys lookup blocks cat :
  build_lookup lookup blocks = Ok cat ->
  forall k, In k (Dict.keys cat) <->
    In k (Dict.keys lookup) \/
    exists b t, In b blocks /\ rb_title b = Some t /\ Py.lower t = k.
Proof.
  revert lookup. induction blocks as [|b blocks IH]; intros lookup H k; simpl in H.
  - injection H as <-. split; [tauto | intros [H|[b [t [[] _]]]]; exact H].
  - unfold bind in H. destruct (rb_title b) as [t|] eqn:Et; simpl in H; [|discriminate].
    destruct (rb_blocks b) as [bs|]; simpl in H; [|discriminate].
    rewrite (IH _ H k), DictFacts.in_keys_set.
    assert (Hk1 : In k (Dict.keys (if Dict.mem lookup (Py.lower t) then lookup
                                   else Dict.set lookup (Py.lower t) []))
                  <-> Py.lower t = k \/ In k (Dict.keys lookup)).
    { unfold Dict.mem. destruct (Dict.get lookup (Py.lower t)) as [d|] eqn:Eg.
      - split; [tauto|]. intros [<-|H1]; [|exact H1].
        apply CatalogFacts.get_in in Eg. change (Py.lower t) with (fst (Py.lower t, d)).
        apply in_map. exact Eg.
      - apply DictFacts.in_keys_set. }
    rewrite Hk1. simpl. split.
    + intros [[H1|[H1|H1]]|[b' [t' [H2 [H3 H4]]]]].
      * right. exists b, t. intuition.
      * right. exists b, t. intuition.
      * left. exact H1.
      * right. exists b', t'. intuition.
    + intros [H1|[b' [t' [[<-|H2] [H3 H4]]]]].
      * left. right. right. exact H1.
      * left. left. congruence.
      * right. exists b', t'. intuition.
Qed.

End AvailableFacts.

(** X11: [load_available_functions] returns its names in increasing string
    order, without duplicates. *)
Theorem available_functions_sorted cb av :
  load_available_functions cb = Ok av ->
  Sorted (fun a b => String.leb a b = true) av /\ NoDup av.
Proof.
  unfold load_available_functions, bind. destruct (read cb) as [blocks|]; [|discriminate].
  destruct (map_exc _ blocks) as [titles|]; [|discriminate]. intros H. injection H as <-.
  split; [apply (SortedBy.sorted_by_sorted _ SortedBy.string_leb_total)|].
  eapply Permutation_NoDup; [apply Permutation_sym, SortedBy.sorted_by_perm | apply NoDup_nodup].
Qed.

(** X12: when the bot loads its catalog without error, [load_available_functions]
    (of the review tool) lists exactly the catalog's function names. *)
Theorem available_functions_are_catalog_keys cb corr av :
  load_available_functions cb = Ok av ->
  snd (load_code_blocks cb corr) <> None ->
  forall k, In k av <-> In k (Dict.keys (fst (load_code_blocks cb corr))).
Proof.
  unfold load_available_functions, load_code_blocks, bind.
  destruct (read cb) as [blocks|]; [|discriminate].
  destruct (map_exc _ blocks) as [titles|] eqn:Et; [|discriminate].
  intros H. injection H as <-.
  destruct (build_lookup [] blocks) as [cat|] eqn:Eb; [|simpl; congruence].
  intros Hok k.
  destruct corr as [| |d]; simpl in Hok |- *; [| congruence |];
  rewrite (AvailableFacts.build_lookup_keys _ _ _ Eb k);
  rewrite <- (AvailableFacts.map_exc_titles _ _ Et k);
  (split;
   [ intros H; right; apply (Permutation_in _ (SortedBy.sorted_by_perm _ _)), nodup_In in H; exact H
   | intros [[]|H]; apply (Permutation_in _ (Permutation_sym (SortedBy.sorted_by_perm _ _)));
     apply nodup_In; exact H ]).
Qed.

Lemma available_functions_sorted_witness :
  load_available_functions (Parsed blocks3) = Ok ["threesum"; "twosum"]
  /\ NoDup ["threesum"; "twosum"].
Proof.
  assert (H : load_available_functions (Parsed blocks3) = Ok ["threesum"; "twosum"])
    by (vm_compute; reflexivity).
  split; [exact H | exact (proj2 (available_functions_sorted _ _ H))].
Defined.

Lemma available_functions_are_catalog_keys_witness :
  load_available_functions (Parsed blocks3) = Ok ["threesum"; "twosum"]
  /\ snd (load_code_blocks (Parsed blocks3) Missing) <> None
  /\ In "threesum" (Dict.keys (fst (load_code_blocks (Parsed blocks3) Missing))).
Proof.
  assert (H : load_available_functions (Parsed blocks3) = Ok ["threesum"; "twosum"])
    by (vm_compute; reflexivity).
  assert (Hs : snd (load_code_blocks (Parsed blocks3) Missing) <> None)
    by (vm_compute; discriminate).
  split; [exact H|]. split; [exact Hs|].
  apply (available_functions_are_catalog_keys _ _ _ H Hs). left. reflexivity.
Defined.

(** ** Adding and listing corrections *)

Lemma in_set_other {V} (m : Dict.t V) k v x y :
  x <> k -> In (x, y) (Dict.set m k v) <-> In (x, y) m.
Proof.
  intros Hne. induction m as [|[k' v'] m IH]; simpl.
  - split; [intros [H|[]]; congruence | intros []].
  - destruct (String.eqb_spec k k') as [->|Hk]; simpl.
    + split; intros [H|H]; auto; congruence.
    + rewrite IH. reflexivity.
Qed.

(** X13: after [add_correction], [list_corrections] prints the new pair,
    every stored pair for the other OCR names and nothing else, sorted. *)
Theorem add_then_list_corrections ocr_error correct_name file file' :
  add_correction ocr_error correct_name file = Ok file' ->
  exists out,
    list_corrections file' = Ok (Some out)
    /\ Sorted (fun a b => pair_leb a b = true) out
    /\ In (Py.lower ocr_error, Py.lower correct_name) out
    /\ forall k v, k <> Py.lower ocr_error ->
         (In (k, v) out <->
          exists d m, file = Parsed d /\ cf_corrections d = Some m /\ In (k, v) m).
Proof.
  unfold add_correction, bind.
  assert (Hmain : forall m, exists out,
    Ok (Some (sorted_by pair_leb (Dict.set m (Py.lower ocr_error) (Py.lower correct_name))))
      = Ok (Some out)
    /\ Sorted (fun a b => pair_leb a b = true) out
    /\ In (Py.lower ocr_error, Py.lower correct_name) out
    /\ forall k v, k <> Py.lower ocr_error -> (In (k, v) out <-> In (k, v) m)).
  { intros m. eexists. split; [reflexivity|].
    split; [apply (SortedBy.sorted_by_sorted _ SortedBy.pair_leb_total)|]. split.
    - apply (Permutation_in _ (Permutation_sym (SortedBy.sorted_by_perm _ _))).
      apply DictFacts.in_keys_set_pair.
    - intros k v Hk. rewrite <- (in_set_other m _ (Py.lower correct_name) _ v Hk).
      split; apply Permutation_in;
        [apply SortedBy.sorted_by_perm | apply Permutation_sym, SortedBy.sorted_by_perm]. }
  destruct file as [| |d]; simpl.
  - intros H. injection H as <-. simpl.
    destruct (Hmain []) as [out [H1 [H2 [H3 H4]]]]. exists out.
    split; [exact H1|]. split; [exact H2|]. split; [exact H3|].
    intros k v Hk. rewrite (H4 k v Hk). split; [intros []|].
    intros [d [m [Hd _]]]. discriminate.
  - discriminate.
  - destruct (cf_corrections d) as [m|] eqn:Em; simpl; [|discriminate].
    intros H. injection H as <-. simpl.
    destruct (Hmain m) as [out [H1 [H2 [H3 H4]]]]. exists out.
    split; [exact H1|]. split; [exact H2|]. split; [exact H3|].
    intros k v Hk. rewrite (H4 k v Hk). split.
    + intros Hin. exists d, m. auto.
    + intros [d' [m' [Hd [Hm Hin]]]]. injection Hd as <-. congruence.
Qed.

Lemma add_then_list_corrections_witness :
  add_correction "TwoSun" "TwoSum" (Parsed (mkCorrFile None (Some [("abc", "abd")])))
    = Ok (Parsed (mkCorrFile None (Some [("abc", "abd"); ("twosun", "twosum")])))
  /\ exists out,
       list_corrections (Parsed (mkCorrFile None (Some [("abc", "abd"); ("twosun", "twosum")])))
         = Ok (Some out)
       /\ In ("twosun", "twosum") out.
Proof.
  assert (H : add_correction "TwoSun" "TwoSum" (Parsed (mkCorrFile None (Some [("abc", "abd")])))
              = Ok (Parsed (mkCorrFile None (Some [("abc", "abd"); ("twosun", "twosum")]))))
    by (vm_compute; reflexivity).
  split; [exact H|].
  destruct (add_then_list_corrections _ _ _ _ H) as [out [H1 [_ [H3 _]]]].
  exists out. split; [exact H1 | exact H3].
Defined.

(** ** The typing loop *)

Module LoopFacts.

Local Open Scope list_scope.

Definition from_catalog (cat : Catalog) (c : string) : Prop :=
  exists k v l, In (k, v) cat /\ In (l, c) v.

Lemma variant_from_catalog cat k v lang :
  In (k, v) cat -> variant lang v = "" \/ from_catalog cat (variant lang v).
Proof.
  intros Hin. unfold variant. destruct lang as [l|]; [|left; reflexivity].
  destruct (Dict.get v l) as [c|] eqn:Eg; [|left; reflexivity].
  right. exists k, v, l. split; [exact Hin | apply CatalogFacts.get_in; exact Eg].
Qed.

Lemma first_variant_from_catalog cat k v c :
  In (k, v) cat -> first_variant v = Ok c -> from_catalog cat c.
Proof.
  intros Hin H. destruct v as [|[l c'] v]; simpl in H; [discriminate|].
  injection H as <-. exists k, ((l, c') :: v), l. split; [exact Hin | left; reflexivity].
Qed.

Lemma get_code_from_catalog env bot name hint c bot' :
  get_code_from_database env bot name hint = Ok (Some c, bot') ->
  c = "" \/ from_catalog (code_blocks bot) c.
Proof.
  unfold get_code_from_database, bind. intros H.
  destruct (negb (Py.truthy name)); [discriminate|].
  destruct (Dict.get (code_blocks bot) (Py.lower name)) as [v|] eqn:Eg.
  - apply CatalogFacts.get_in in Eg.
    destruct (lang_in _ v); [injection H as <- _; apply (variant_from_catalog _ _ _ _ Eg)|].
    destruct (lang_in hint v); [injection H as <- _; apply (variant_from_catalog _ _ _ _ Eg)|].
    destruct (Dict.mem v _);
      [injection H as <- _; apply (variant_from_catalog _ _ _ (Some (detected_language env)) Eg)|].
    destruct (first_variant v) as [c'|] eqn:Ef; [|discriminate].
    injection H as <- _. right. exact (first_variant_from_catalog _ _ _ _ Eg Ef).
  - destruct (match fuzzy_match_function_name bot name with
              | Some c => if Py.truthy c then Dict.get (code_blocks bot) c else None
              | None => None end) as [v|] eqn:Ef.
    + destruct (fuzzy_match_function_name bot name) as [c0|]; [|discriminate].
      destruct (Py.truthy c0); [|discriminate]. apply CatalogFacts.get_in in Ef.
      destruct (lang_in _ v); [injection H as <- _; apply (variant_from_catalog _ _ _ _ Ef)|].
      destruct (first_variant v) as [c'|] eqn:Efv; [|discriminate].
      injection H as <- _. right. exact (first_variant_from_catalog _ _ _ _ Ef Efv).
    + destruct (substring_match _ _) as [v|] eqn:Es; [|discriminate].
      destruct (substring_match_in _ _ _ Es) as [k Hk].
      destruct (first_variant v) as [c'|] eqn:Efv; [|discriminate].
      injection H as <- _. right. exact (first_variant_from_catalog _ _ _ _ Hk Efv).
Qed.

(** Each typed name differs from the one typed before it. *)
Fixpoint fresh_run (prev : option string) (names : list string) : Prop :=
  match names with
  | [] => True
  | n :: ns => opt_eqb (Some n) prev = false /\ fresh_run (Some n) ns
  end.

Definition same_setup (b b' : Bot) : Prop :=
  code_blocks b' = code_blocks b /\ ocr_corrections b' = ocr_corrections b
  /\ selected_language b' = selected_language b.

Lemma get_code_setup env bot name hint r bot' :
  get_code_from_database env bot name hint = Ok (r, bot') ->
  same_setup bot bot' /\ unknown_count bot <= unknown_count bot' <= S (unknown_count bot).
Proof.
  intros H. destruct (get_code_state_change _ _ _ _ _ _ H) as [->|[_ [_ ->]]].
  - repeat split; lia.
  - repeat split; simpl; lia.
Qed.

Definition loop_inv (fuel : nat) (prev : option string) (bot bot' : Bot) (new : list Action) : Prop :=
  length new <= fuel
  /\ (forall n c, In (Typed n c) new -> from_catalog (code_blocks bot) c /\ 10 <= String.length c)
  /\ fresh_run prev (typed_names new)
  /\ same_setup bot bot'
  /\ unknown_count bot <= unknown_count bot' <= unknown_count bot + fuel.

Lemma typed_names_app a b : typed_names (a ++ b) = typed_names a ++ typed_names b.
Proof. unfold typed_names. apply flat_map_app. Qed.

Lemma fetch_facts env bot cur code bot0 :
  match cur with
  | Some f => if Py.truthy f then get_code_from_database env bot f None else Ok (None, bot)
  | None => Ok (None, bot)
  end = Ok (code, bot0) ->
  same_setup bot bot0 /\ unknown_count bot <= unknown_count bot0 <= S (unknown_count bot)
  /\ (forall c, code = Some c -> c = "" \/ from_catalog (code_blocks bot) c)
  /\ (code <> None -> opt_truthy cur = true).
Proof.
  destruct cur as [f|].
  - destruct (Py.truthy f) eqn:Ef.
    + intros H. destruct (get_code_setup _ _ _ _ _ _ H) as [Hs Hc].
      split; [exact Hs|]. split; [exact Hc|]. split; [|intros _; exact Ef].
      intros c ->. exact (get_code_from_catalog _ _ _ _ _ _ H).
    + intros H. injection H as <- <-. repeat split; try lia; congruence.
  - intros H. injection H as <- <-. repeat split; try lia; congruence.
Qed.

Lemma same_setup_trans a b c : same_setup a b -> same_setup b c -> same_setup a c.
Proof. unfold same_setup. intros [? [? ?]] [? [? ?]]. repeat split; congruence. Qed.

Lemma loop_inv_nil fuel prev bot bot' :
  same_setup bot bot' ->
  unknown_count bot <= unknown_count bot' <= unknown_count bot + fuel ->
  loop_inv fuel prev bot bot' [].
Proof.
  intros Hs Hc. split; [simpl; lia|]. split; [intros n c []|].
  split; [exact I|]. split; [exact Hs | exact Hc].
Qed.

Lemma same_setup_refl b : same_setup b b.
Proof. repeat split. Qed.

Lemma step_inv scr fuel count calls' prev cur bot acts bot' acts' :
  (forall count calls prev bot acts bot' acts',
     challenge_loop scr fuel count calls prev bot acts = Ok (bot', acts') ->
     exists new, acts' = acts ++ new /\ loop_inv fuel prev bot bot' new) ->
  (opt_truthy cur = true -> opt_eqb cur prev = false) ->
  (r <- match cur with
        | Some f => if Py.truthy f then get_code_from_database (env_at scr (S count)) bot f None
                    else Ok (None, bot)
        | None => Ok (None, bot)
        end ;;
   let '(code_text, bot0) := r in
   let skip := let full_text := Py2.upper (text_on_screen scr (S count)) in
               if Py.contains "WPM" full_text || Py.contains "ACCURACY" full_text
               then Ok (bot0, acts)
               else challenge_loop scr fuel (S count) calls' prev bot0 (acts ++ [PressEsc]) in
   match code_text with
   | Some c =>
       if negb (Py.truthy c) || Nat.ltb (String.length c) 10 then skip
       else match cur with
            | Some f => challenge_loop scr fuel (S count) calls' cur bot0 (acts ++ [Typed f c])
            | None => skip
            end
   | None => skip
   end) = Ok (bot', acts') ->
  exists new, acts' = acts ++ new /\ loop_inv (S fuel) prev bot bot' new.
Proof.
  intros IH Hfresh H. unfold bind in H.
  destruct (match cur with
            | Some f => if Py.truthy f then get_code_from_database (env_at scr (S count)) bot f None
                        else Ok (None, bot)
            | None => Ok (None, bot) end) as [[code bot0]|e] eqn:Eget; [|discriminate].
  destruct (fetch_facts _ _ _ _ _ Eget) as [Hs [Hc [Hcat Htr]]].
  (* the [skip] branch *)
  assert (Hskip :
    (let full_text := Py2.upper (text_on_screen scr (S count)) in
     if Py.contains "WPM" full_text || Py.contains "ACCURACY" full_text
     then Ok (bot0, acts)
     else challenge_loop scr fuel (S count) calls' prev bot0 (acts ++ [PressEsc])) = Ok (bot', acts') ->
    exists new, acts' = acts ++ new /\ loop_inv (S fuel) prev bot bot' new).
  { simpl. destruct (_ || _).
    - intros H'. injection H' as <- <-. exists []. rewrite app_nil_r. split; [reflexivity|].
      apply loop_inv_nil; [exact Hs | lia].
    - intros H'. destruct (IH _ _ _ _ _ _ _ H') as [new [-> [Hl [Ht [Hf [Hs' Hc']]]]]].
      exists (PressEsc :: new). split; [rewrite <- app_assoc; reflexivity|].
      split; [simpl; lia|]. split.
      + intros n c [Hn|Hn]; [discriminate|]. destruct Hs as [Hcb _].
        rewrite <- Hcb. exact (Ht n c Hn).
      + split; [exact Hf|]. split; [exact (same_setup_trans _ _ _ Hs Hs')|]. lia. }
  destruct code as [c|]; [|exact (Hskip H)].
  destruct (negb (Py.truthy c) || Nat.ltb (String.length c) 10) eqn:Ec; [exact (Hskip H)|].
  destruct cur as [f|]; [|exact (Hskip H)].
  destruct (IH _ _ _ _ _ _ _ H) as [new [-> [Hl [Ht [Hf [Hs' Hc']]]]]].
  apply orb_false_iff in Ec as [Ec1 Ec2]. apply negb_false_iff in Ec1.
  apply Nat.ltb_ge in Ec2.
  exists (Typed f c :: new). split; [rewrite <- app_assoc; reflexivity|].
  split; [simpl; lia|]. split.
  - intros n c' [Hn|Hn].
    + injection Hn as <- <-. split; [|exact Ec2].
      destruct (Hcat c eq_refl) as [->|Hfc]; [discriminate Ec1 | exact Hfc].
    + destruct Hs as [Hcb _]. rewrite <- Hcb. exact (Ht n c' Hn).
  - split; [split; [apply Hfresh, Htr; discriminate | exact Hf]|].
    split; [exact (same_setup_trans _ _ _ Hs Hs')|]. lia.
Qed.

Lemma challenge_loop_inv scr fuel count calls prev bot acts bot' acts' :
  challenge_loop scr fuel count calls prev bot acts = Ok (bot', acts') ->
  exists new, acts' = acts ++ new /\ loop_inv fuel prev bot bot' new.
Proof.
  revert count calls prev bot acts bot' acts'.
  induction fuel as [|fuel IH]; intros count calls prev bot acts bot' acts' H.
  - simpl in H. injection H as <- <-. exists []. rewrite app_nil_r.
    split; [reflexivity|]. apply loop_inv_nil; [apply same_setup_refl | lia].
  - unfold challenge_loop in H; fold challenge_loop in H.
    destruct (opt_truthy (function_on_screen scr calls)
              && opt_eqb (function_on_screen scr calls) prev) eqn:Ed.
    + destruct (opt_eqb (function_on_screen scr (S calls)) prev) eqn:Es.
      * injection H as <- <-. exists []. rewrite app_nil_r.
        split; [reflexivity|]. apply loop_inv_nil; [apply same_setup_refl | lia].
      * eapply step_inv; [exact IH | intros _; exact Es | exact H].
    + eapply step_inv; [exact IH | | exact H].
      intros Ht. rewrite Ht in Ed. exact Ed.
Qed.

End LoopFacts.

Lemma fresh_run_no_repeat prev names :
  LoopFacts.fresh_run prev names -> forall l1 l2 x, names <> (l1 ++ x :: x :: l2)%list.
Proof.
  intros Hf l1. revert prev names Hf.
  induction l1 as [|y l1 IH]; intros prev names Hf l2 x Heq; subst names; simpl in Hf.
  - destruct Hf as [_ [Hxx _]]. simpl in Hxx. rewrite String.eqb_refl in Hxx. discriminate.
  - destruct Hf as [_ Hf]. exact (IH _ _ Hf l2 x eq_refl).
Qed.

(** X14: [play_typing_challenge] performs at most 10 actions (typings or
    ESC presses) and records at most 10 unknown functions; it never changes
    the catalog, the correction table or the selected language. *)
Theorem play_bounded_and_setup_kept scr bot bot' acts :
  play_typing_challenge scr bot = Ok (bot', acts) ->
  length acts <= 10
  /\ unknown_count bot <= unknown_count bot' <= unknown_count bot + 10
  /\ code_blocks bot' = code_blocks bot
  /\ ocr_corrections bot' = ocr_corrections bot
  /\ selected_language bot' = selected_language bot.
Proof.
  intros H. destruct (LoopFacts.challenge_loop_inv _ _ _ _ _ _ _ _ _ H)
    as [new [-> [Hl [_ [_ [[H1 [H2 H3]] Hc]]]]]].
  simpl. auto.
Qed.

(** X15: every code [play_typing_challenge] types is a code variant stored
    in the catalog, at least 10 characters long: OCR text is never typed. *)
Theorem play_types_catalog_code scr bot bot' acts n c :
  play_typing_challenge scr bot = Ok (bot', acts) ->
  In (Typed n c) acts ->
  10 <= String.length c
  /\ exists k v l, In (k, v) (code_blocks bot) /\ In (l, c) v.
Proof.
  intros H Hin. destruct (LoopFacts.challenge_loop_inv _ _ _ _ _ _ _ _ _ H)
    as [new [-> [_ [Ht _]]]].
  destruct (Ht n c Hin) as [Hcat Hlen]. split; [exact Hlen | exact Hcat].
Qed.

(** X16: [play_typing_challenge] never types the same function name twice in
    a row (ESC presses in between do not count). *)
Theorem play_no_immediate_retype scr bot bot' acts :
  play_typing_challenge scr bot = Ok (bot', acts) ->
  forall l1 l2 x, typed_names acts <> (l1 ++ x :: x :: l2)%list.
Proof.
  intros H. destruct (LoopFacts.challenge_loop_inv _ _ _ _ _ _ _ _ _ H)
    as [new [-> [_ [_ [Hf _]]]]].
  exact (fresh_run_no_repeat _ _ Hf).
Qed.

(** A short game: [TwoSum], then [threeSum] twice (the game is over). *)
Definition scr_demo : Screen :=
  mkScreen (fun k => if Nat.eqb k 0 then Some "TwoSum" else Some "threeSum")
           (fun _ => "WPM 80") (fun _ => env0).

Definition bot_demo : Bot :=
  mkBot (fst (load_code_blocks (Parsed blocks3) Missing)) (Some []) None 0 [].

Definition acts_demo : list Action :=
  [Typed "TwoSum" "def twoSum(nums, target):"; Typed "threeSum" "def threeSum(nums):"].

Lemma play_bounded_and_setup_kept_witness :
  play_typing_challenge scr_demo bot_demo = Ok (bot_demo, acts_demo)
  /\ length acts_demo <= 10.
Proof.
  assert (H : play_typing_challenge scr_demo bot_demo = Ok (bot_demo, acts_demo))
    by (vm_compute; reflexivity).
  split; [exact H | exact (proj1 (play_bounded_and_setup_kept _ _ _ _ H))].
Defined.

Lemma play_types_catalog_code_witness :
  play_typing_challenge scr_demo bot_demo = Ok (bot_demo, acts_demo)
  /\ 10 <= String.length "def threeSum(nums):".
Proof.
  assert (H : play_typing_challenge scr_demo bot_demo = Ok (bot_demo, acts_demo))
    by (vm_compute; reflexivity).
  split; [exact H|].
  refine (proj1 (play_types_catalog_code _ _ _ _ "threeSum" _ H _)).
  right. left. reflexivity.
Defined.

Lemma play_no_immediate_retype_witness :
  play_typing_challenge scr_demo bot_demo = Ok (bot_demo, acts_demo)
  /\ typed_names acts_demo <> ([] ++ "TwoSum" :: "TwoSum" :: ["threeSum"])%list.
Proof.
  assert (H : play_typing_challenge scr_demo bot_demo = Ok (bot_demo, acts_demo))
    by (vm_compute; reflexivity).
  split; [exact H | exact (play_no_immediate_retype _ _ _ _ H _ _ _)].
Defined.

(** ** The info file *)

Lemma split_on_app sep a rest :
  Py2.count_char sep a = 0 ->
  Py2.split_on sep (a ++ String sep rest) = a :: Py2.split_on sep rest.
Proof.
  induction a as [|c a IH]; intros H; simpl.
  - rewrite Ascii.eqb_refl. reflexivity.
  - simpl in H. destruct (Ascii.eqb c sep) eqn:E; [discriminate|].
    rewrite IH by exact H. reflexivity.
Qed.

Lemma split_on_app_line sep a rest :
  Py2.count_char sep a = 0 ->
  Py2.split_on sep (a ++ (String sep "" ++ rest)) = a :: Py2.split_on sep rest.
Proof. exact (split_on_app sep a rest). Qed.

Lemma universal_newlines_app a b :
  Py2.count_char cr a = 0 -> universal_newlines (a ++ b) = a ++ universal_newlines b.
Proof.
  induction a as [|c a IH]; intros H; [reflexivity|]. simpl in H |- *.
  destruct (Ascii.eqb c cr); [discriminate|]. rewrite IH by exact H. reflexivity.
Qed.

(** X17: the review tool, reading the info file written for an unknown
    function in text mode, gets back that function's name, stripped and
    lowercased, whenever the name holds no newline and no carriage return. *)
Theorem info_file_round_trip bot timestamp function_name :
  Py2.count_char Py2.nl function_name = 0 ->
  Py2.count_char cr function_name = 0 ->
  read_ocr_name (universal_newlines (info_file_text bot timestamp function_name))
  = Ok (Some (Py.lower (strip function_name))).
Proof.
  intros Hn Hr. unfold read_ocr_name, info_file_text. cbv zeta.
  rewrite <- TypeFacts.append_assoc_str.
  rewrite universal_newlines_app by (simpl; exact Hr).
  change (universal_newlines (String Py2.nl "" ++ ?r))
    with (String Py2.nl "" ++ universal_newlines r).
  rewrite split_on_app_line by (simpl; exact Hn).
  reflexivity.
Qed.

Lemma info_file_round_trip_witness :
  Py2.count_char Py2.nl " TwoSun " = 0 /\ Py2.count_char cr " TwoSun " = 0
  /\ read_ocr_name (universal_newlines (info_file_text bot_js "20261018_120000" " TwoSun "))
     = Ok (Some "twosun").
Proof.
  split; [reflexivity|]. split; [reflexivity|].
  exact (info_file_round_trip bot_js "20261018_120000" " TwoSun " eq_refl eq_refl).
Defined.

(** ** The menus *)

Lemma split_on_single sep s : Py2.count_char sep s = 0 -> Py2.split_on sep s = [s].
Proof.
  induction s as [|c s IH]; intros H; [reflexivity|]. simpl in H |- *.
  destruct (Ascii.eqb c sep); [discriminate|]. rewrite IH by exact H. reflexivity.
Qed.

Lemma typed_line s :
  Py2.count_char Py2.nl s = 0 -> typed_string (type_text s) = Py2.lstrip s.
Proof.
  intros H. unfold type_text. rewrite TypeFacts.type_lines_typed, split_on_single by exact H.
  reflexivity.
Qed.

(** X18: [start_game_sequence(language, mode)] makes [language] the selected
    language and changes nothing else in the bot; when neither argument holds
    a newline, the menus receive [start], [no], the language and the mode
    (leading whitespace removed), each followed by Enter. *)
Theorem start_game_sequence_effect bot language mode :
  selected_language (fst (start_game_sequence bot language mode)) = Some language
  /\ code_blocks (fst (start_game_sequence bot language mode)) = code_blocks bot
  /\ ocr_corrections (fst (start_game_sequence bot language mode)) = ocr_corrections bot
  /\ unknown_count (fst (start_game_sequence bot language mode)) = unknown_count bot
  /\ history (fst (start_game_sequence bot language mode)) = history bot
  /\ (Py2.count_char Py2.nl language = 0 -> Py2.count_char Py2.nl mode = 0 ->
      typed_string (snd (start_game_sequence bot language mode))
      = "start" ++ String Py2.nl "" ++ "no" ++ String Py2.nl "" ++
        Py2.lstrip language ++ String Py2.nl "" ++ Py2.lstrip mode ++ String Py2.nl "").
Proof.
  repeat split. intros Hl Hm. unfold start_game_sequence. cbv beta iota delta [snd].
  assert (Hnl : typed_string (type_text (String Py2.nl "")) = String Py2.nl "") by reflexivity.
  rewrite !TypeFacts.typed_string_app, !Hnl, (typed_line language Hl), (typed_line mode Hm).
  reflexivity.
Qed.

Lemma start_game_sequence_effect_witness :
  typed_string (snd (start_game_sequence bot_js "python" "interview"))
  = "start" ++ String Py2.nl "" ++ "no" ++ String Py2.nl "" ++
    "python" ++ String Py2.nl "" ++ "interview" ++ String Py2.nl "".
Proof.
  exact (proj2 (proj2 (proj2 (proj2 (proj2 (start_game_sequence_effect bot_js "python" "interview")))))
           eq_refl eq_refl).
Defined.

(** ** Levenshtein distance *)

(** X19: the two-row dynamic program of [levenshtein_distance] computes the
    edit distance given by the textbook recurrence [Lev.ed] (minimum number
    of single-character insertions, deletions and substitutions), taken
    over the two strings read from their last character. *)
Theorem levenshtein_is_edit_distance a b :
  levenshtein_distance a b
  = Lev.ed (rev (list_ascii_of_string a)) (rev (list_ascii_of_string b)).
Proof. apply levenshtein_distance_ed. Qed.

(** X20: [levenshtein_distance a b] is 0 exactly when [a = b], and lies
    between the difference and the maximum of the two lengths. *)
Theorem levenshtein_bounds a b :
  (levenshtein_distance a b = 0 <-> a = b)
  /\ Nat.max (String.length a) (String.length b) - Nat.min (String.length a) (String.length b)
     <= levenshtein_distance a b
  /\ levenshtein_distance a b <= Nat.max (String.length a) (String.length b).
Proof.
  split; [split|split].
  - intros H. destruct (string_dec a b) as [E|Hne]; [exact E|].
    pose proof (lev_pos a b Hne). lia.
  - intros ->. apply levenshtein_refl.
  - pose proof (lev_ge_diff a b) as H1. pose proof (lev_ge_diff b a) as H2.
    rewrite lev_swap in H2. lia.
  - apply levenshtein_le_max.
Qed.

(** ** Corrections across the tools *)

Lemma add_correction_shape ocr_error correct_name file file' :
  add_correction ocr_error correct_name file = Ok file' ->
  exists comment m, file' = Parsed (mkCorrFile comment
                                     (Some (Dict.set m (Py.lower ocr_error) (Py.lower correct_name)))).
Proof.
  unfold add_correction, bind. destruct file as [| |d]; simpl.
  - intros H. injection H as <-. eexists. exists []. reflexivity.
  - discriminate.
  - destruct (cf_corrections d) as [m|]; simpl; [|discriminate].
    intros H. injection H as <-. eauto.
Qed.

(** X21: once [add_correction ocr_error correct_name] has run, a bot that
    loads the new [ocr_corrections.json] resolves any capitalisation of
    [ocr_error] to [correct_name] lowercased, with no fuzzy search. *)
Theorem added_correction_used_by_bot ocr_error correct_name file file' cb corr bot name :
  add_correction ocr_error correct_name file = Ok file' ->
  snd (load_code_blocks cb file') = Some corr ->
  ocr_corrections bot = Some corr ->
  Py.lower name = Py.lower ocr_error -> name <> "" ->
  fuzzy_match_function_name bot name = Some (Py.lower correct_name).
Proof.
  intros Ha Hl Hb Hn Hne.
  destruct (add_correction_shape _ _ _ _ Ha) as [comment [m ->]].
  assert (Hc : corr = Dict.set m (Py.lower ocr_error) (Py.lower correct_name)).
  { unfold load_code_blocks, bind in Hl. destruct (read cb); [|discriminate].
    destruct (build_lookup [] _); [|discriminate]. simpl in Hl. congruence. }
  unfold fuzzy_match_function_name. destruct name as [|c s]; [congruence|]. simpl negb. cbv iota.
  rewrite Hb, Hn, Hc, DictFacts.get_set. reflexivity.
Qed.

Lemma added_correction_used_by_bot_witness :
  fuzzy_match_function_name
    (mkBot cat2 (Some [("twosun", "twosum")]) None 0 []) "TwoSun" = Some "twosum".
Proof.
  refine (added_correction_used_by_bot "twosun" "TwoSum" Missing
            (Parsed (mkCorrFile (Some "Map common OCR errors to correct function names")
                                (Some [("twosun", "twosum")])))
            (Parsed blocks3) [("twosun", "twosum")] _ "TwoSun" _ _ _ _ _);
    first [vm_compute; reflexivity | discriminate].
Defined.

(** ** Which block a catalog entry comes from *)

Module BuildFacts.

Local Open Scope list_scope.

Definition get2 (cat : Catalog) (t l : string) : option string :=
  match Dict.get cat t with Some v => Dict.get v l | None => None end.

Definition lang_of (b : RawBlock) : string :=
  match rb_language b with Some l => l | None => "unknown" end.

Lemma build_lookup_app lk pre post :
  build_lookup lk (pre ++ post) = (l <- build_lookup lk pre ;; build_lookup l post).
Proof.
  revert lk. induction pre as [|b pre IH]; intros lk; simpl; [reflexivity|].
  unfold bind at 1 3. destruct (req (rb_title b)) as [t|]; [|reflexivity].
  unfold bind at 1 3. destruct (req (rb_blocks b)) as [bs|]; [|reflexivity].
  apply IH.
Qed.

Lemma build_lookup_cons lk b rest :
  build_lookup lk (b :: rest) =
  (t <- req (rb_title b) ;;
   bs <- req (rb_blocks b) ;;
   let title := Py.lower t in
   let lk1 := if Dict.mem lk title then lk else Dict.set lk title [] in
   let inner := match Dict.get lk1 title with Some v => v | None => [] end in
   build_lookup (Dict.set lk1 title (Dict.set inner (lang_of b) (String.concat "" bs))) rest).
Proof. reflexivity. Qed.

Lemma step_get2 (lk : Catalog) t0 l0 c0 :
  let lk1 := if Dict.mem lk t0 then lk else Dict.set lk t0 [] in
  let inner := match Dict.get lk1 t0 with Some v => v | None => [] end in
  get2 (Dict.set lk1 t0 (Dict.set inner l0 c0)) t0 l0 = Some c0.
Proof. intros. unfold get2. rewrite !DictFacts.get_set. reflexivity. Qed.

Lemma step_get2_other (lk : Catalog) t0 l0 c0 t l :
  t <> t0 \/ l <> l0 ->
  let lk1 := if Dict.mem lk t0 then lk else Dict.set lk t0 [] in
  let inner := match Dict.get lk1 t0 with Some v => v | None => [] end in
  get2 (Dict.set lk1 t0 (Dict.set inner l0 c0)) t l = get2 lk t l.
Proof.
  intros Hne lk1 inner. unfold get2. destruct (string_dec t t0) as [->|Ht].
  - destruct Hne as [Hne|Hl]; [congruence|].
    rewrite DictFacts.get_set, CatalogFacts.get_set_other by exact Hl.
    subst inner lk1. unfold Dict.mem. destruct (Dict.get lk t0) as [v|] eqn:Eg.
    + cbv iota. rewrite Eg. reflexivity.
    + cbv iota. rewrite DictFacts.get_set. reflexivity.
  - rewrite CatalogFacts.get_set_other by exact Ht. subst lk1.
    destruct (Dict.mem lk t0); [reflexivity|].
    rewrite CatalogFacts.get_set_other by exact Ht. reflexivity.
Qed.

Lemma build_lookup_preserves (lk : Catalog) post cat t l :
  build_lookup lk post = Ok cat ->
  (forall b' t', In b' post -> rb_title b' = Some t' -> Py.lower t' = t -> lang_of b' <> l) ->
  get2 cat t l = get2 lk t l.
Proof.
  revert lk. induction post as [|b post IH]; intros lk H Hpost.
  - simpl in H. injection H as <-. reflexivity.
  - rewrite build_lookup_cons in H. unfold bind in H.
    destruct (req (rb_title b)) as [t'|] eqn:Et; [|discriminate].
    destruct (req (rb_blocks b)) as [bs|]; [|discriminate]. cbv zeta in H.
    rewrite (IH _ H) by (intros b'' t'' Hin; apply Hpost; right; exact Hin).
    apply step_get2_other.
    destruct (string_dec t (Py.lower t')) as [->|Hne]; [right|left; exact Hne].
    destruct (rb_title b) eqn:Et'; [|discriminate]. injection Et as ->.
    intros Hl. apply (Hpost b t'); [left; reflexivity | exact Et' | reflexivity | symmetry; exact Hl].
Qed.

End BuildFacts.

(** X22: when [load_code_blocks] succeeds, every block of [CodeBlocks.json]
    that is the last one with its (lowercased title, language) pair has its
    joined lines stored as that language's variant of that title: a later
    block with the same title and language replaces an earlier one. *)
Theorem load_code_blocks_last_block_wins pre b post corr t bs :
  snd (load_code_blocks (Parsed (pre ++ b :: post)%list) corr) <> None ->
  rb_title b = Some t -> rb_blocks b = Some bs ->
  (forall b' t', In b' post -> rb_title b' = Some t' -> Py.lower t' = Py.lower t ->
     match rb_language b' with Some l => l | None => "unknown" end
     <> match rb_language b with Some l => l | None => "unknown" end) ->
  exists v, Dict.get (fst (load_code_blocks (Parsed (pre ++ b :: post)%list) corr)) (Py.lower t) = Some v
    /\ Dict.get v (match rb_language b with Some l => l | None => "unknown" end)
       = Some (String.concat "" bs).
Proof.
  intros Hok Ht Hbs Hpost.
  destruct (build_lookup [] (pre ++ b :: post)%list) as [cat|] eqn:Eb;
    [|unfold load_code_blocks, bind in Hok; simpl read in Hok; cbv iota beta in Hok;
      rewrite Eb in Hok; simpl in Hok; congruence].
  assert (Hfst : forall P : Catalog -> Prop, P cat ->
            P (fst (load_code_blocks (Parsed (pre ++ b :: post)%list) corr))).
  { intros P HP. destruct corr; [| exfalso; apply Hok |];
    unfold load_code_blocks, bind; simpl read; cbv iota beta; rewrite Eb; [exact HP | reflexivity | exact HP]. }
  apply Hfst.
  rewrite BuildFacts.build_lookup_app in Eb. unfold bind at 1 in Eb.
  destruct (build_lookup [] pre) as [lk|]; [|discriminate].
  rewrite BuildFacts.build_lookup_cons, Ht, Hbs in Eb. simpl in Eb.
  assert (H2 : BuildFacts.get2 cat (Py.lower t) (BuildFacts.lang_of b) = Some (String.concat "" bs)).
  { rewrite (BuildFacts.build_lookup_preserves _ _ _ _ _ Eb).
    - apply BuildFacts.step_get2.
    - intros b' t' Hin Ht' Hl. exact (Hpost b' t' Hin Ht' Hl). }
  unfold BuildFacts.get2 in H2. destruct (Dict.get cat (Py.lower t)) as [v|]; [|discriminate].
  exists v. split; [reflexivity | exact H2].
Qed.

Lemma load_code_blocks_last_block_wins_witness :
  exists v,
    Dict.get (fst (load_code_blocks
                     (Parsed ([] ++ mkRawBlock (Some "TwoSum") (Some "python")
                                      (Some ["def twoSum(nums, target):"])
                              :: [mkRawBlock (Some "ThreeSum") (Some "python")
                                    (Some ["def threeSum(nums):"]);
                                  mkRawBlock (Some "twoSum") (Some "javascript")
                                    (Some ["var twoSum = function() {}"])])%list) Missing))
      (Py.lower "TwoSum") = Some v
    /\ Dict.get v "python" = Some (String.concat "" ["def twoSum(nums, target):"]).
Proof.
  refine (load_code_blocks_last_block_wins []
            (mkRawBlock (Some "TwoSum") (Some "python") (Some ["def twoSum(nums, target):"]))
            _ Missing "TwoSum" ["def twoSum(nums, target):"] _ eq_refl eq_refl _).
  - vm_compute. discriminate.
  - intros b' t' Hin Ht' Hl. simpl in Hin.
    destruct Hin as [<-|[<-|[]]]; injection Ht' as <-; [discriminate Hl | discriminate].
Defined.

(** ** Suggested corrections *)

Lemma suggestion_loop_spec available existing contents sugg o f :
  suggestion_loop available existing contents = Ok sugg ->
  In (o, f) sugg ->
  (exists content, In content contents /\ read_ocr_name content = Ok (Some o))
  /\ Dict.get existing o = None
  /\ exists s rest, review_matches available o = (f, s) :: rest.
Proof.
  revert sugg. induction contents as [|content contents IH]; intros sugg H Hin; simpl in H.
  - injection H as <-. destruct Hin.
  - unfold bind at 1 in H. destruct (read_ocr_name content) as [found|] eqn:Er; [|discriminate].
    assert (Hlift : forall sugg', suggestion_loop available existing contents = Ok sugg' ->
              In (o, f) sugg' ->
              (exists content', In content' (content :: contents)
                                /\ read_ocr_name content' = Ok (Some o))
              /\ Dict.get existing o = None
              /\ exists s rest, review_matches available o = (f, s) :: rest).
    { intros sugg' H' Hin'. destruct (IH _ H' Hin') as [[c' [Hc Hr]] Hrest].
      split; [exists c'; split; [right; exact Hc | exact Hr] | exact Hrest]. }
    destruct found as [ocr|]; [|exact (Hlift _ H Hin)].
    destruct (Dict.mem existing ocr) eqn:Em; [exact (Hlift _ H Hin)|].
    destruct (review_matches available ocr) as [|[best sc] rest] eqn:Ev; [exact (Hlift _ H Hin)|].
    unfold bind in H. destruct (suggestion_loop available existing contents) as [others|] eqn:Eo;
      [|discriminate].
    injection H as <-. destruct Hin as [Heq|Hin]; [|exact (Hlift _ eq_refl Hin)].
    injection Heq as -> ->. split; [exists content; split; [left; reflexivity | exact Er]|].
    split; [unfold Dict.mem in Em; destruct (Dict.get existing o); [discriminate | reflexivity]|].
    exists sc, rest. exact Ev.
Qed.

(** X23: each pair [(ocr, best)] that [suggest_corrections] proposes comes
    from the [OCR Detected:] line of one of the info files, [ocr] has no
    entry in the correction table yet, and [best] is an available function
    whose score is above 0.5 and at least that of every available function. *)
Theorem suggest_corrections_sound txt_files cb corrections sugg o f :
  suggest_corrections txt_files cb corrections = Ok sugg ->
  In (o, f) sugg ->
  (exists contents content, txt_files = Some contents /\ In content contents
                            /\ read_ocr_name content = Ok (Some o))
  /\ (forall d m, corrections = Parsed d -> cf_corrections d = Some m -> Dict.get m o = None)
  /\ exists available, load_available_functions cb = Ok available
     /\ In f available
     /\ (1 # 2 < score (4 # 5) o (strip_prefix prefixes o) f)%Q
     /\ forall g, In g available ->
          (score (4 # 5) o (strip_prefix prefixes o) g <= score (4 # 5) o (strip_prefix prefixes o) f)%Q.
Proof.
  unfold suggest_corrections. intros H Hin.
  destruct txt_files as [[|c0 cs]|]; [injection H as <-; destruct Hin| |injection H as <-; destruct Hin].
  unfold bind in H. destruct (load_available_functions cb) as [available|] eqn:Ea; [|discriminate].
  destruct (suggestion_loop_spec _ _ _ _ _ _ H Hin) as [[content [Hc Hr]] [Hg [s [rest Hv]]]].
  split; [exists (c0 :: cs), content; auto|]. split.
  - intros d m -> Hm. rewrite Hm in Hg. exact Hg.
  - exists available. split; [reflexivity|].
    assert (Hf : In (f, s) (review_matches available o)) by (rewrite Hv; left; reflexivity).
    apply SortFacts.review_matches_in in Hf as [Hf [Hs Hgt]].
    split; [exact Hf|]. rewrite <- Hs. split; [exact Hgt|].
    intros g Hgin.
    destruct (Qlt_le_dec (1 # 2) (score (4 # 5) o (strip_prefix prefixes o) g)) as [Hlt|Hle];
      [|lra].
    assert (Hin' : In (g, score (4 # 5) o (strip_prefix prefixes o) g) (review_matches available o))
      by (apply SortFacts.review_matches_in; auto).
    pose proof (SortFacts.sort_desc_sorted
      (flat_map (fun func =>
        if Qltb (1 # 2) (score (4 # 5) o (strip_prefix prefixes o) func)
        then [(func, score (4 # 5) o (strip_prefix prefixes o) func)] else [])
        available)) as Hsort.
    change (Sorted SortFacts.desc (review_matches available o)) in Hsort.
    rewrite Hv in Hsort, Hin'. exact (SortFacts.sorted_head_max _ _ _ Hsort Hin').
Qed.

Lemma suggest_corrections_sound_witness :
  suggest_corrections (Some [info_file_text bot_js "20261018_120000" "TwoSun"])
    (Parsed blocks3) Missing = Ok [("twosun", "twosum")]
  /\ In "twosum" ["threesum"; "twosum"].
Proof.
  assert (H : suggest_corrections (Some [info_file_text bot_js "20261018_120000" "TwoSun"])
                (Parsed blocks3) Missing = Ok [("twosun", "twosum")])
    by (vm_compute; reflexivity).
  split; [exact H|].
  destruct (suggest_corrections_sound _ _ _ _ "twosun" "twosum" H (or_introl eq_refl))
    as [_ [_ [av [Hav [Hf _]]]]].
  assert (Hav' : load_available_functions (Parsed blocks3) = Ok ["threesum"; "twosum"])
    by (vm_compute; reflexivity).
  rewrite Hav' in Hav. injection Hav as <-. exact Hf.
Defined.
